(** * PS/2 keyboard to parallel bus firmware (PS2APU)

    A shallow embedding of [keyboard.asm] (the interrupt driven bit
    receiver, its timeout guard and the circular key buffer) and of
    [host.c] (the scan code decoder), with the properties of the design
    description stated and settled against the embedded code. *)

From Stdlib Require Import ZArith Lia Bool List.
From stdpp Require Import base list.
Import ListNotations.
Local Open Scope Z_scope.

(** ** 8051 primitives used by keyboard.asm *)

Module I8051.

(** [SETB bit] and [CLR bit] on a bit addressable byte. *)
Definition SETB (bit byte : Z) : Z := Z.setbit byte bit.
Definition CLR (bit byte : Z) : Z := Z.clearbit byte bit.

(** [INC A] on the 8 bit accumulator. *)
Definition INC (a : Z) : Z := (a + 1) mod 256.

(** [ANL A, #k]. *)
Definition ANL (a k : Z) : Z := Z.land a k.

(** [RRC A]: rotate right through carry; the carry enters at bit 7. *)
Definition RRC (c : bool) (a : Z) : Z :=
  Z.lor (Z.shiftl (Z.b2z c) 7) (Z.shiftr a 1).

(** [PSW.0], the P flag: set when the accumulator holds an odd number of
    one bits. *)
Definition PSW_P (a : Z) : bool :=
  xorb (Z.testbit a 0) (xorb (Z.testbit a 1) (xorb (Z.testbit a 2)
  (xorb (Z.testbit a 3) (xorb (Z.testbit a 4) (xorb (Z.testbit a 5)
  (xorb (Z.testbit a 6) (Z.testbit a 7))))))).

End I8051.

(** ** keyboard.asm *)

Module Keyboard.
Import I8051.

Definition KEYBUFLEN : Z := 16.

(** keyboard.h *)
Definition KEYBOARD_ERROR_BITS : Z := 0xF0.

(** Bit numbers inside [_g_bKeyFlags] (bit addresses 0x00..0x07 are the
    eight bits of internal RAM byte 0x20). *)
Definition m_fKeyBusy : Z := 0.
Definition m_fKeyOverflow : Z := 4.
Definition m_fKeyParity : Z := 5.
Definition m_fKeyFraming : Z := 6.
Definition m_fKeyTimeout : Z := 7.

(** The internal RAM of the module, plus the run control bit of timer 0.
    The interrupt enable bits are left out: every routine below is one
    atomic event of the model. *)
Record Kbd : Type := mkKbd {
  g_bKeyFlags : Z;
  m_bKeyState : Z;
  m_bKeyData : Z;
  m_bKeyGet : Z;
  m_bKeyPut : Z;
  m_abKeyBuffer : list Z;
  TR0 : bool
}.

Definition set_flags (f : Z) (st : Kbd) : Kbd :=
  mkKbd f (m_bKeyState st) (m_bKeyData st) (m_bKeyGet st) (m_bKeyPut st)
        (m_abKeyBuffer st) (TR0 st).
Definition set_state (s : Z) (st : Kbd) : Kbd :=
  mkKbd (g_bKeyFlags st) s (m_bKeyData st) (m_bKeyGet st) (m_bKeyPut st)
        (m_abKeyBuffer st) (TR0 st).
Definition set_data (d : Z) (st : Kbd) : Kbd :=
  mkKbd (g_bKeyFlags st) (m_bKeyState st) d (m_bKeyGet st) (m_bKeyPut st)
        (m_abKeyBuffer st) (TR0 st).
Definition set_get (g : Z) (st : Kbd) : Kbd :=
  mkKbd (g_bKeyFlags st) (m_bKeyState st) (m_bKeyData st) g (m_bKeyPut st)
        (m_abKeyBuffer st) (TR0 st).
Definition set_put (p : Z) (st : Kbd) : Kbd :=
  mkKbd (g_bKeyFlags st) (m_bKeyState st) (m_bKeyData st) (m_bKeyGet st) p
        (m_abKeyBuffer st) (TR0 st).
Definition set_buffer (b : list Z) (st : Kbd) : Kbd :=
  mkKbd (g_bKeyFlags st) (m_bKeyState st) (m_bKeyData st) (m_bKeyGet st)
        (m_bKeyPut st) b (TR0 st).
Definition set_TR0 (t : bool) (st : Kbd) : Kbd :=
  mkKbd (g_bKeyFlags st) (m_bKeyState st) (m_bKeyData st) (m_bKeyGet st)
        (m_bKeyPut st) (m_abKeyBuffer st) t.

(** [_InitializeKeyboard]: both cursors, the state and the flags byte are
    cleared and timer 0 is stopped.  The buffer bytes are not touched. *)
Definition InitializeKeyboard (st : Kbd) : Kbd :=
  set_TR0 false (set_flags 0 (set_state 0 (set_put 0 (set_get 0 st)))).

(** [_GetKey]: the 16 bit result in DPH:DPL, read as a C [int]; -1 when
    the cursors are equal. *)
Definition GetKey (st : Kbd) : Z * Kbd :=
  let a := m_bKeyGet st in
  if a =? m_bKeyPut st then (-1, st)
  else
    let a := ANL (INC a) (KEYBUFLEN - 1) in
    let st := set_get a st in
    (default 0 (m_abKeyBuffer st !! Z.to_nat a), st).

(** [PutKey] with its two exits [SAVEIT] and [NOROOM].  The [CJNE]
    compares the incremented cursor in A with [m_bKeyPut]. *)
Definition SAVEIT (a : Z) (st : Kbd) : Kbd :=
  let st := set_put a st in
  set_buffer (<[Z.to_nat a := m_bKeyData st]> (m_abKeyBuffer st)) st.

Definition NOROOM (st : Kbd) : Kbd :=
  set_flags (SETB m_fKeyOverflow (g_bKeyFlags st)) st.

Definition PutKey (st : Kbd) : Kbd :=
  let a := ANL (INC (m_bKeyPut st)) (KEYBUFLEN - 1) in
  if negb (a =? m_bKeyPut st) then SAVEIT a st else NOROOM st.

(** The exits of the edge interrupt. *)
Definition KEYNXT (st : Kbd) : Kbd := set_state (INC (m_bKeyState st)) st.

Definition FRAERR (st : Kbd) : Kbd :=
  set_state 11 (set_flags (SETB m_fKeyFraming (g_bKeyFlags st)) st).

Definition BADPAR (st : Kbd) : Kbd :=
  set_state 11 (set_flags (SETB m_fKeyParity (g_bKeyFlags st)) st).

(** The state routines; [d] is the level of KEYBOARD_DATA at the edge. *)
Definition START (d : bool) (st : Kbd) : Kbd :=
  if d then FRAERR st
  else KEYNXT (set_TR0 true (set_data 0
         (set_flags (SETB m_fKeyBusy (g_bKeyFlags st)) st))).

Definition SDATA (d : bool) (st : Kbd) : Kbd :=
  KEYNXT (set_data (RRC d (m_bKeyData st)) st).

Definition SPARITY (d : bool) (st : Kbd) : Kbd :=
  if PSW_P (m_bKeyData st)
  then (if negb d then KEYNXT st else BADPAR st)
  else (if negb d then BADPAR st else KEYNXT st).

Definition STOPB (d : bool) (st : Kbd) : Kbd :=
  let st := set_TR0 false (set_flags (CLR m_fKeyBusy (g_bKeyFlags st)) st) in
  if negb d then FRAERR st
  else set_state 0 (PutKey st).

(** [_KEYBOARD_BIT]: the jump through [KEYTAB].  The table has twelve
    entries; a state byte above 11 would leave the table, which the model
    reports as [None]. *)
Definition KEYBOARD_BIT (d : bool) (st : Kbd) : option Kbd :=
  match m_bKeyState st with
  | 0 => Some (START d st)
  | 1 | 2 | 3 | 4 | 5 | 6 | 7 | 8 => Some (SDATA d st)
  | 9 => Some (SPARITY d st)
  | 10 => Some (STOPB d st)
  | 11 => Some st
  | _ => None
  end.

(** [_KEYBOARD_TIMEOUT], the timer 0 interrupt. *)
Definition KEYBOARD_TIMEOUT (st : Kbd) : Kbd :=
  set_state 0
    (set_flags (CLR m_fKeyBusy (SETB m_fKeyTimeout (g_bKeyFlags st))) st).

(** The state right after [_InitializeKeyboard] on cleared RAM. *)
Definition power_on : Kbd :=
  InitializeKeyboard (mkKbd 0 0 0 0 0 (replicate 16 0) false).

(** *** Driving the receiver *)

(** The interrupt handler applied to a train of falling clock edges, each
    with the level sampled on the data line. *)
Fixpoint run_edges (st : Kbd) (es : list bool) : option Kbd :=
  match es with
  | [] => Some st
  | d :: es =>
      match KEYBOARD_BIT d st with
      | Some st' => run_edges st' es
      | None => None
      end
  end.

(** A PS/2 frame for data byte [b], as the keyboard sends it: start bit 0,
    eight data bits least significant first, a parity bit that makes the
    number of one bits among data and parity odd, stop bit 1. *)
Definition data_bits (b : Z) : list bool :=
  map (Z.testbit b) [0; 1; 2; 3; 4; 5; 6; 7].

Definition ones (l : list bool) : nat := length (List.filter id l).

Definition odd_parity_bit (b : Z) : bool := Nat.even (ones (data_bits b)).

Definition frame (b : Z) : list bool :=
  false :: data_bits b ++ [odd_parity_bit b; true].

(** What the machine sees: a clock edge with its data level, or a call of
    [GetKey] from the background task between two edges. *)
Inductive event : Type :=
  | Edge (d : bool)
  | Dequeue.

Definition edges_of (evs : list event) : list bool :=
  flat_map (fun e => match e with Edge d => [d] | Dequeue => [] end) evs.

(** Runs a schedule and collects what each [GetKey] call returned. *)
Fixpoint run (st : Kbd) (evs : list event) : option (list Z * Kbd) :=
  match evs with
  | [] => Some ([], st)
  | Edge d :: evs =>
      match KEYBOARD_BIT d st with
      | Some st' => run st' evs
      | None => None
      end
  | Dequeue :: evs =>
      let '(k, st') := GetKey st in
      match run st' evs with
      | Some (ks, st'') => Some (k :: ks, st'')
      | None => None
      end
  end.

(** The bytes among the results of [GetKey]; -1 is its empty answer. *)
Definition received (ks : list Z) : list Z :=
  List.filter (fun k => negb (k =? -1)) ks.

(** Calls [GetKey] until it answers -1, at most [n] times. *)
Fixpoint drain (n : nat) (st : Kbd) : list Z :=
  match n with
  | O => []
  | S n =>
      let '(k, st') := GetKey st in
      if k =? -1 then [] else k :: drain n st'
  end.

(** The abstract queue held by the ring: the unread entries, oldest
    first.  Entry [i] sits one slot past the get cursor plus [i]. *)
Definition pending (st : Kbd) : nat :=
  Z.to_nat ((m_bKeyPut st - m_bKeyGet st) mod KEYBUFLEN).

Definition slot (g : Z) (i : nat) : nat :=
  Z.to_nat ((g + 1 + Z.of_nat i) mod KEYBUFLEN).

Definition contents (st : Kbd) : list Z :=
  map (fun i => default 0 (m_abKeyBuffer st !! slot (m_bKeyGet st) i))
      (seq 0 (pending st)).

(** A schedule never lets a stop bit arrive with 15 bytes unread:
    [n] counts the unread bytes and [pos] the edges already seen of the
    frame in progress. *)
Fixpoint room (n pos : nat) (evs : list event) : bool :=
  match evs with
  | [] => true
  | Dequeue :: evs => room (Nat.pred n) pos evs
  | Edge _ :: evs =>
      if (pos =? 10)%nat then (n <? 15)%nat && room (S n) 0 evs
      else room n (S pos) evs
  end.

(** The accumulator after the start bit and the first [k - 1] data bits
    of [b]. *)
Definition acc (b : Z) (k : nat) : Z :=
  fold_left (fun a d => RRC d a) (firstn (Nat.pred k) (data_bits b)) 0.

(** Well-formed RAM: sixteen buffer bytes, cursors inside the buffer,
    byte sized cells. *)
Definition is_byte (x : Z) : Prop := 0 <= x < 256.

Record wf (st : Kbd) : Prop := mkWf {
  wf_len : length (m_abKeyBuffer st) = 16%nat;
  wf_buf : Forall is_byte (m_abKeyBuffer st);
  wf_get : 0 <= m_bKeyGet st < 16;
  wf_put : 0 <= m_bKeyPut st < 16;
  wf_data : is_byte (m_bKeyData st)
}.

(** No sticky error bit that was set before is clear afterwards. *)
Definition keeps_errors (st st' : Kbd) : Prop :=
  forall bit, 4 <= bit <= 7 ->
    Z.testbit (g_bKeyFlags st) bit = true ->
    Z.testbit (g_bKeyFlags st') bit = true.

(** Fifteen bytes 1..15 unread in an otherwise fresh receiver, and the
    byte 0x1C assembled and waiting for its stop bit: the state reached
    from [power_on] by the frames of 1..15 and the first ten edges of the
    frame of 0x1C, with no dequeue. *)
Definition full15 : Kbd :=
  mkKbd 1 10 0x1C 0 15 [0; 1; 2; 3; 4; 5; 6; 7; 8; 9; 10; 11; 12; 13; 14; 15] true.

Definition fifteen : list Z :=
  [1; 2; 3; 4; 5; 6; 7; 8; 9; 10; 11; 12; 13; 14; 15].

(** The receiver has taken the first [k] edges of the frame of [b]: the
    state byte counts them and, past the start bit, the accumulator holds
    the data bits shifted in so far. *)
Definition in_frame (b : Z) (k : nat) (st : Kbd) : Prop :=
  m_bKeyState st = Z.of_nat k /\ ((1 <= k)%nat -> m_bKeyData st = acc b k).

(** Both cursors and every buffer byte are the same in two states. *)
Definition same_ring (st st' : Kbd) : Prop :=
  m_bKeyGet st' = m_bKeyGet st /\ m_bKeyPut st' = m_bKeyPut st /\
  m_abKeyBuffer st' = m_abKeyBuffer st.

(** Mid-frame: the timeout timer runs and the busy flag is up. *)
Definition armed (st : Kbd) : Prop :=
  TR0 st = true /\ Z.testbit (g_bKeyFlags st) m_fKeyBusy = true.

(** Sixteen frames in a row, with no dequeue in between. *)
Definition sixteen : list Z :=
  [1; 2; 3; 4; 5; 6; 7; 8; 9; 10; 11; 12; 13; 14; 15; 16].

(** A receiver that has the data bits of 0x1C and waits for the parity
    bit. *)
Definition at_parity : Kbd :=
  mkKbd 1 9 0x1C 0 0 (replicate 16 0) true.

(** Two frames with the background task dequeuing in the middle of the
    second one. *)
Definition two_frames : list event :=
  map Edge (frame 0x1C) ++ Dequeue :: Dequeue ::
  map Edge (firstn 5 (frame 0xF0)) ++ Dequeue ::
  map Edge (skipn 5 (frame 0xF0)).

(** A frame for [b] whose parity bit [p] and stop bit [s] are whatever
    arrives on the data line. *)
Definition frame_with (b : Z) (p s : bool) : list bool :=
  false :: data_bits b ++ [p; s].

End Keyboard.

(** ** host.c *)

Module Host.
Import Keyboard.

(** scancode.h *)
Definition KEY_BREAK : Z := 0x80.
Definition KEY_F1 : Z := 0x81.
Definition KEY_F2 : Z := 0x82.
Definition KEY_F3 : Z := 0x83.
Definition KEY_F4 : Z := 0x84.
Definition KEY_F5 : Z := 0x85.
Definition KEY_F6 : Z := 0x86.
Definition KEY_F7 : Z := 0x87.
Definition KEY_F8 : Z := 0x88.
Definition KEY_F9 : Z := 0x89.
Definition KEY_F10 : Z := 0x8A.
Definition KEY_F11 : Z := 0x8B.
Definition KEY_F12 : Z := 0x8C.
Definition KEY_SCRLCK : Z := 0x8D.
Definition KEY_NUMLOCK : Z := 0x8E.
Definition KEY_UP : Z := 0x90.
Definition KEY_DOWN : Z := 0x91.
Definition KEY_RIGHT : Z := 0x92.
Definition KEY_LEFT : Z := 0x93.
Definition KEY_MENU : Z := 0x95.
Definition KEY_END : Z := 0x96.
Definition KEY_HOME : Z := 0x97.
Definition KEY_INSERT : Z := 0x98.
Definition KEY_PGDN : Z := 0x99.
Definition KEY_PGUP : Z := 0x9A.
Definition KEY_DELETE : Z := 0x9B.
Definition KEY_KP0 : Z := 0xA0.
Definition KEY_KP1 : Z := 0xA1.
Definition KEY_KP2 : Z := 0xA2.
Definition KEY_KP3 : Z := 0xA3.
Definition KEY_KP4 : Z := 0xA4.
Definition KEY_KP5 : Z := 0xA5.
Definition KEY_KP6 : Z := 0xA6.
Definition KEY_KP7 : Z := 0xA7.
Definition KEY_KP8 : Z := 0xA8.
Definition KEY_KP9 : Z := 0xA9.
Definition KEY_KPDOT : Z := 0xAA.
Definition KEY_KPPLUS : Z := 0xAB.
Definition KEY_KPSLASH : Z := 0xAC.
Definition KEY_KPSTAR : Z := 0xAD.
Definition KEY_KPMINUS : Z := 0xAE.
Definition KEY_KPENTER : Z := 0xAF.

(** ps2apu.h *)
Definition LOBYTE (x : Z) : Z := Z.land x 0xFF.

(** The simplified ctype macros of host.c. *)
Definition toupper (c : Z) : Z := Z.land c 0xDF.
Definition islower (c : Z) : bool := (0x61 <=? c) && (c <=? 0x7A).

(** Bit numbers inside [m_bShiftFlags] (bit addresses 0x08..0x0B are bits
    0..3 of internal RAM byte 0x21). *)
Definition m_fLeftShiftDown : Z := 0.
Definition m_fRightShiftDown : Z := 1.
Definition m_fControlDown : Z := 2.
Definition m_fCapsLockOn : Z := 3.

(** Assignment of a C [bool] to a [__bit]. *)
Definition assign_bit (bit : Z) (v : bool) (byte : Z) : Z :=
  if v then Z.setbit byte bit else Z.clearbit byte bit.

(** *** WaitKey over the receiver RAM *)

(** One pass through the body of the [while (true)] of [WaitKey]:
    [Some] byte when it returns, [None] when it goes round again. *)
Definition WaitKey_pass (st : Kbd) : option Z * Kbd :=
  let '(nKey, st) := GetKey st in
  if negb (nKey =? -1) then (Some (LOBYTE nKey), st)
  else if negb (Z.land (g_bKeyFlags st) KEYBOARD_ERROR_BITS =? 0)
       then (None, InitializeKeyboard st)
       else (None, st).

(** [n] passes of that loop with no interrupt arriving in between. *)
Fixpoint WaitKey_poll (n : nat) (st : Kbd) : option Z * Kbd :=
  match n with
  | O => (None, st)
  | S n =>
      match WaitKey_pass st with
      | (Some k, st') => (Some k, st')
      | (None, st') => WaitKey_poll n st'
      end
  end.

(** *** The decoder *)

(** What the decoder task sees and does: [keys] are the values that the
    coming calls of [GetKey] will deliver, in order; [sent] are the bytes
    handed to [SendHost] so far, oldest first. *)
Record World : Type := mkWorld {
  keys : list Z;
  m_bShiftFlags : Z;
  sent : list Z
}.

(** A call either returns, or waits for ever in [WaitKey] because the
    keyboard stays silent, or indexes [g_abScanCodes] outside its 128
    declared rows. *)
Inductive Res (A : Type) : Type :=
  | Ret (a : A) (w : World)
  | Waiting (w : World)
  | OutOfTable (row : Z) (w : World).
Arguments Ret {A} a w.
Arguments Waiting {A} w.
Arguments OutOfTable {A} row w.

Definition M (A : Type) : Type := World -> Res A.

Definition ret {A} (a : A) : M A := fun w => Ret a w.

Definition bind {A B} (m : M A) (k : A -> M B) : M B :=
  fun w =>
    match m w with
    | Ret a w' => k a w'
    | Waiting w' => Waiting w'
    | OutOfTable r w' => OutOfTable r w'
    end.

Notation "x <- m ;; k" := (bind m (fun x => k))
  (at level 100, m at level 99, k at level 200, right associativity).
Notation "m ;;; k" := (bind m (fun _ => k))
  (at level 100, k at level 200, right associativity).

(** [WaitKey] as the decoder sees it: the next byte the receiver
    delivers. *)
Definition WaitKey : M Z :=
  fun w =>
    match keys w with
    | [] => Waiting w
    | k :: ks => Ret (LOBYTE k) (mkWorld ks (m_bShiftFlags w) (sent w))
    end.

(** [SendHost]: the handshake always completes in the model. *)
Definition SendHost (ch : Z) : M unit :=
  fun w => Ret tt (mkWorld (keys w) (m_bShiftFlags w) (sent w ++ [ch])).

Definition get_bit (bit : Z) : M bool :=
  fun w => Ret (Z.testbit (m_bShiftFlags w) bit) w.

Definition put_bit (bit : Z) (v : bool) : M unit :=
  fun w => Ret tt (mkWorld (keys w) (assign_bit bit v (m_bShiftFlags w)) (sent w)).

Definition when (c : bool) (m : M unit) : M unit := if c then m else ret tt.

Definition DoSpecial (bKey : Z) : bool :=
  match bKey with
  | 0xFA | 0xAA | 0xEE | 0xFE | 0x00 | 0xFF => true
  | _ => false
  end.

Section Decoder.

(** The contents of the table live in scancode_us.c, which is not among
    the sources; the decoder is stated over any table.  Elements are
    [uint8_t], so an entry is read through [LOBYTE]. *)
Variable g_abScanCodes : Z -> Z -> Z.

(** The jumper on P3.0 (or the build option of the debug version). *)
Variable SWAP_CAPSLOCK_AND_CONTROL : bool.

Definition DoShift (bKey : Z) (fRelease fExtended : bool) : M bool :=
  let bKey :=
    if SWAP_CAPSLOCK_AND_CONTROL then
      if bKey =? 0x58 then 0x14
      else if bKey =? 0x14 then 0x58
      else bKey
    else bKey in
  match bKey with
  | 0x12 => put_bit m_fLeftShiftDown (negb fRelease) ;;; ret true
  | 0x59 => put_bit m_fRightShiftDown (negb fRelease) ;;; ret true
  | 0x14 =>
      if fExtended then ret false
      else put_bit m_fControlDown (negb fRelease) ;;; ret true
  | 0x58 =>
      if fRelease then ret false
      else c <- get_bit m_fCapsLockOn ;;
           put_bit m_fCapsLockOn (negb c) ;;; ret true
  | 0x11 => ret true
  | 0x1F | 0x27 => ret false
  | _ => ret false
  end.

Definition DoKeypad (bKey : Z) (fRelease : bool) : M bool :=
  match bKey with
  | 0x70 => when (negb fRelease) (SendHost KEY_KP0) ;;; ret true
  | 0x69 => when (negb fRelease) (SendHost KEY_KP1) ;;; ret true
  | 0x72 => when (negb fRelease) (SendHost KEY_KP2) ;;; ret true
  | 0x7A => when (negb fRelease) (SendHost KEY_KP3) ;;; ret true
  | 0x6B => when (negb fRelease) (SendHost KEY_KP4) ;;; ret true
  | 0x73 => when (negb fRelease) (SendHost KEY_KP5) ;;; ret true
  | 0x74 => when (negb fRelease) (SendHost KEY_KP6) ;;; ret true
  | 0x6C => when (negb fRelease) (SendHost KEY_KP7) ;;; ret true
  | 0x75 => when (negb fRelease) (SendHost KEY_KP8) ;;; ret true
  | 0x7D => when (negb fRelease) (SendHost KEY_KP9) ;;; ret true
  | 0x71 => when (negb fRelease) (SendHost KEY_KPDOT) ;;; ret true
  | 0x7C => when (negb fRelease) (SendHost KEY_KPSTAR) ;;; ret true
  | 0x7B => when (negb fRelease) (SendHost KEY_KPMINUS) ;;; ret true
  | 0x79 => when (negb fRelease) (SendHost KEY_KPPLUS) ;;; ret true
  | 0x77 => ret true
  | _ => ret false
  end.

Definition DoExtended : M unit :=
  bExtended <- WaitKey ;;
  p <- (if bExtended =? 0xF0
        then (k <- WaitKey ;; ret (true, k))
        else ret (false, bExtended)) ;;
  let fRelease := fst p in
  let bExtended := snd p in
  match bExtended with
  | 0x75 => when (negb fRelease) (SendHost KEY_UP)
  | 0x72 => when (negb fRelease) (SendHost KEY_DOWN)
  | 0x74 => when (negb fRelease) (SendHost KEY_RIGHT)
  | 0x6B => when (negb fRelease) (SendHost KEY_LEFT)
  | 0x69 => when (negb fRelease) (SendHost KEY_END)
  | 0x6C => when (negb fRelease) (SendHost KEY_HOME)
  | 0x70 => when (negb fRelease) (SendHost KEY_INSERT)
  | 0x71 => when (negb fRelease) (SendHost KEY_DELETE)
  | 0x7A => when (negb fRelease) (SendHost KEY_PGDN)
  | 0x7D => when (negb fRelease) (SendHost KEY_PGUP)
  | 0x5A => when (negb fRelease) (SendHost KEY_KPENTER)
  | 0x4A => when (negb fRelease) (SendHost KEY_KPSLASH)
  | 0x11 | 0x14 => DoShift bExtended fRelease true ;;; ret tt
  | 0x2F => when (negb fRelease) (SendHost KEY_MENU)
  | 0x1F | 0x27 => DoShift bExtended fRelease true ;;; ret tt
  | 0x12 | 0x7C => ret tt
  | _ => ret tt
  end.

Definition DoFunction (bKey : Z) (fRelease : bool) : M bool :=
  match bKey with
  | 0x05 => when (negb fRelease) (SendHost KEY_F1) ;;; ret true
  | 0x06 => when (negb fRelease) (SendHost KEY_F2) ;;; ret true
  | 0x04 => when (negb fRelease) (SendHost KEY_F3) ;;; ret true
  | 0x0C => when (negb fRelease) (SendHost KEY_F4) ;;; ret true
  | 0x03 => when (negb fRelease) (SendHost KEY_F5) ;;; ret true
  | 0x0B => when (negb fRelease) (SendHost KEY_F6) ;;; ret true
  | 0x83 => when (negb fRelease) (SendHost KEY_F7) ;;; ret true
  | 0x0A => when (negb fRelease) (SendHost KEY_F8) ;;; ret true
  | 0x01 => when (negb fRelease) (SendHost KEY_F9) ;;; ret true
  | 0x09 => when (negb fRelease) (SendHost KEY_F10) ;;; ret true
  | 0x78 => when (negb fRelease) (SendHost KEY_F11) ;;; ret true
  | 0x07 => when (negb fRelease) (SendHost KEY_F12) ;;; ret true
  | _ => ret false
  end.

(** The two bit column index computed at the top of [DoASCII]. *)
Definition shift_index (flags : Z) : Z :=
  let bShift :=
    if Z.testbit flags m_fLeftShiftDown || Z.testbit flags m_fRightShiftDown
    then 1 else 0 in
  if Z.testbit flags m_fControlDown then Z.lor bShift 2 else bShift.

(** The read of [g_abScanCodes[bKey][bShift]]; the array is declared with
    128 rows. *)
Definition read_table (bKey bShift : Z) : M Z :=
  fun w =>
    if bKey <? 128 then Ret (LOBYTE (g_abScanCodes bKey bShift)) w
    else OutOfTable bKey w.

Definition DoASCII (bKey : Z) (fRelease : bool) : M bool :=
  fun w =>
    let bShift := shift_index (m_bShiftFlags w) in
    (bASCII <- read_table bKey bShift ;;
     if bASCII =? 0 then ret false
     else if fRelease then ret true
     else
       let bASCII := Z.land bASCII 0x7F in
       caps <- get_bit m_fCapsLockOn ;;
       let bASCII := if caps && islower bASCII then toupper bASCII else bASCII in
       SendHost bASCII ;;; ret true) w.

(** The reading of the Pause/Break tail: each [if (WaitKey() != x)
    continue;] in turn, then the send. *)
Fixpoint expect (tail : list Z) (k : M unit) : M unit :=
  match tail with
  | [] => k
  | x :: tail =>
      b <- WaitKey ;;
      if negb (b =? x) then ret tt else expect tail k
  end.

Definition pause_tail : list Z := [0x14; 0x77; 0xE1; 0xF0; 0x14; 0xF0; 0x77].

(** One turn of the [while (true)] of [ConvertKeys]; every [continue]
    ends the turn. *)
Definition ConvertKeys_turn : M unit :=
  bKey <- WaitKey ;;
  if DoSpecial bKey then ret tt
  else if bKey =? 0xE0 then DoExtended
  else if bKey =? 0xE1 then expect pause_tail (SendHost KEY_BREAK)
  else
    p <- (if bKey =? 0xF0
          then (k <- WaitKey ;; ret (true, k))
          else ret (false, bKey)) ;;
    let fRelease := fst p in
    let bKey := snd p in
    if bKey =? 0x77 then when (negb fRelease) (SendHost KEY_NUMLOCK)
    else if bKey =? 0x7E then when (negb fRelease) (SendHost KEY_SCRLCK)
    else
      h <- DoShift bKey fRelease false ;;
      if h then ret tt else
      h <- DoFunction bKey fRelease ;;
      if h then ret tt else
      h <- DoKeypad bKey fRelease ;;
      if h then ret tt else
      DoASCII bKey fRelease ;;; ret tt.

(** How the endless loop stops making progress. *)
Inductive Halt : Type :=
  | Starved (w : World)
  | BadRow (row : Z) (w : World).

(** [n] turns of the loop; [None] when all [n] turns returned. *)
Fixpoint ConvertKeys_loop (n : nat) (w : World) : option Halt :=
  match n with
  | O => None
  | S n =>
      match ConvertKeys_turn w with
      | Ret _ w' => ConvertKeys_loop n w'
      | Waiting w' => Some (Starved w')
      | OutOfTable r w' => Some (BadRow r w')
      end
  end.

(** [ConvertKeys] on the bytes [ks] the receiver will deliver: each turn
    takes at least one byte, so one turn more than there are bytes is
    enough. *)
Definition ConvertKeys (ks : list Z) : option Halt :=
  ConvertKeys_loop (S (length ks)) (mkWorld ks 0 []).

End Decoder.

(** Tables used to exhibit behaviours: no key mapped, and every entry
    0xE1 (the letter a with bit 7 set). *)
Definition no_table : Z -> Z -> Z := fun _ _ => 0.
Definition high_table : Z -> Z -> Z := fun _ _ => 0xE1.

(** The US rows the design description quotes: 0x1C is the A key. *)
Definition a_table : Z -> Z -> Z :=
  fun row col =>
    if row =? 0x1C then
      match col with 0 => 0x61 | 1 => 0x41 | 2 => 0x01 | _ => 0x01 end
    else 0.

(** What the description says is sent for a nonzero table entry [e]: its
    seven bit character, as the upper case letter when CapsLock is on and
    the character is one of the letters a to z. *)
Definition resolved (caps : bool) (e : Z) : Z :=
  let c := e mod 128 in
  if caps && (97 <=? c) && (c <=? 122) then c - 32 else c.

(** A call that returns has put no byte back: the bytes still to come
    are no more than before. *)
Definition shrinks {A} (m : M A) : Prop :=
  forall w a w', m w = Ret a w' -> (length (keys w') <= length (keys w))%nat.

(** *** The receiver and its consumer together *)

(** What can happen to the receiver RAM: a falling clock edge (INT0) with
    the level of the data line, the timer 0 interrupt, or one pass of the
    loop of [WaitKey], the only caller of [GetKey]. *)
Inductive happening : Type :=
  | Int0 (d : bool)
  | Timer0
  | Pass.

(** Runs a schedule; the list holds, for each pass of [WaitKey], the byte
    it returned or [None] when it went round again. *)
Fixpoint system (st : Kbd) (hs : list happening)
  : option (list (option Z) * Kbd) :=
  match hs with
  | [] => Some ([], st)
  | Int0 d :: hs =>
      match KEYBOARD_BIT d st with
      | Some st' => system st' hs
      | None => None
      end
  | Timer0 :: hs => system (KEYBOARD_TIMEOUT st) hs
  | Pass :: hs =>
      let '(r, st') := WaitKey_pass st in
      match system st' hs with
      | Some (rs, st'') => Some (r :: rs, st'')
      | None => None
      end
  end.

(** *** What a call of the decoder does to the host side *)

(** The world a call leaves behind, however it ends. *)
Definition world_of {A} (r : Res A) : World :=
  match r with
  | Ret _ w => w
  | Waiting w => w
  | OutOfTable _ w => w
  end.

Definition halt_world (h : Halt) : World :=
  match h with
  | Starved w => w
  | BadRow _ w => w
  end.

(** A call hands at most one byte to the host, and that byte satisfies
    [P]. *)
Definition emits {A} (P : Z -> Prop) (m : M A) : Prop :=
  forall w,
    sent (world_of (m w)) = sent w \/
    exists c, P c /\ sent (world_of (m w)) = sent w ++ [c].

(** The same for a handler that answers whether it took the key: when it
    answers no, it has sent nothing. *)
Definition emits_if_handled (P : Z -> Prop) (m : M bool) : Prop :=
  emits P m /\ forall w w', m w = Ret false w' -> sent w' = sent w.

(** A call keeps a property of the world, however it ends. *)
Definition preserves {A} (I : World -> Prop) (m : M A) : Prop :=
  forall w, I w -> I (world_of (m w)).

(** A call never indexes outside the table. *)
Definition in_table {A} (m : M A) : Prop :=
  forall w r w', m w <> OutOfTable r w'.

(** Classes of bytes for [emits]: none at all, and a range of codes. *)
Definition nothing : Z -> Prop := fun _ => False.
Definition special (lo hi : Z) : Z -> Prop := fun c => lo <= c <= hi.

(** The bytes still to come are at most [n]. *)
Definition at_most (n : nat) : World -> Prop :=
  fun w => (length (keys w) <= n)%nat.

(** A call changes neither what has been sent nor the modifiers. *)
Definition quiet {A} (m : M A) : Prop :=
  forall w,
    sent (world_of (m w)) = sent w /\
    m_bShiftFlags (world_of (m w)) = m_bShiftFlags w.

(** A call sends or changes the modifiers, never both. *)
Definition exclusive {A} (m : M A) : Prop :=
  forall w,
    sent (world_of (m w)) = sent w \/
    m_bShiftFlags (world_of (m w)) = m_bShiftFlags w.

End Host.

(** ** ps2apu.h and ps2apu.c *)

Module Main.
Import Keyboard Host.

(** ps2apu.h *)
Definition VERSION : Z := 4.
Definition HIBYTE (x : Z) : Z := Z.land (Z.land (Z.shiftr x 8) 0xFF) 0xFF.
Definition MKWORD (h l : Z) : Z :=
  Z.land (Z.lor (Z.shiftl (Z.land h 0xFF) 8) (Z.land l 0xFF)) 0xFFFF.

(** scancode.h *)
Definition KEY_VERSION : Z := 0xC0.

Section Startup.

Variable g_abScanCodes : Z -> Z -> Z.
Variable SWAP_CAPSLOCK_AND_CONTROL : bool.

(** [ConvertKeys] entered in world [w]: the modifier byte is cleared and
    the loop runs on the bytes still to come. *)
Definition ConvertKeys_in (w : World) : option Halt :=
  ConvertKeys_loop g_abScanCodes SWAP_CAPSLOCK_AND_CONTROL
    (S (length (keys w))) (mkWorld (keys w) 0 (sent w)).

(** [main]: the receiver is initialised, the version byte is sent, then
    the decoder runs for ever.  The result is the receiver RAM at the
    moment interrupts are switched on and the way the decoder comes to
    rest on the bytes [ks]; the port pins and the LED are left out. *)
Definition main (st : Kbd) (ks : list Z) : Kbd * option Halt :=
  let st := InitializeKeyboard st in
  match SendHost (Z.lor KEY_VERSION VERSION) (mkWorld ks 0 []) with
  | Ret _ w => (st, ConvertKeys_in w)
  | Waiting w => (st, Some (Starved w))
  | OutOfTable r w => (st, Some (BadRow r w))
  end.

End Startup.

End Main.

(** * Properties of keyboard.asm *)

Module KeyboardProofs.
Import I8051 Keyboard.

(** ** Arithmetic of the cursors and of the flag bits *)

(** A boolean property checked on each of the 256 byte values holds of
    every byte. *)
Lemma bytes_forall (P : Z -> bool) :
  forallb P (map Z.of_nat (seq 0 256)) = true ->
  forall b, is_byte b -> P b = true.
Proof.
  intros H b [Hlo Hhi]. rewrite forallb_forall in H. apply H.
  replace b with (Z.of_nat (Z.to_nat b)) by lia.
  apply in_map, in_seq. lia.
Qed.

Lemma cursor_mask a : ANL a (KEYBUFLEN - 1) = a mod 16.
Proof.
  unfold ANL, KEYBUFLEN. change (16 - 1) with (Z.ones 4).
  now rewrite Z.land_ones by lia.
Qed.

Lemma cursor_range a : 0 <= ANL (INC a) (KEYBUFLEN - 1) < 16.
Proof. rewrite cursor_mask. apply Z.mod_pos_bound. lia. Qed.

Lemma next_cursor a :
  0 <= a < 16 -> ANL (INC a) (KEYBUFLEN - 1) = (a + 1) mod 16.
Proof.
  intros Ha. rewrite cursor_mask. unfold INC.
  rewrite (Z.mod_small (a + 1) 256) by lia. reflexivity.
Qed.

(** The incremented and masked cursor never equals the cursor it was
    computed from. *)
Lemma next_cursor_ne p : ANL (INC p) (KEYBUFLEN - 1) <> p.
Proof.
  intros E. pose proof (cursor_range p) as R. rewrite E in R.
  rewrite next_cursor in E by lia.
  revert E. Z.to_euclidean_division_equations. lia.
Qed.

Lemma PutKey_always_saves st :
  PutKey st = SAVEIT (ANL (INC (m_bKeyPut st)) (KEYBUFLEN - 1)) st.
Proof.
  unfold PutKey.
  destruct (Z.eqb_spec (ANL (INC (m_bKeyPut st)) (KEYBUFLEN - 1)) (m_bKeyPut st)) as [E|E].
  - exfalso. exact (next_cursor_ne _ E).
  - reflexivity.
Qed.

Lemma RRC_byte d a : is_byte a -> is_byte (RRC d a).
Proof.
  intros Ha.
  pose proof (bytes_forall (fun a => (0 <=? RRC d a) && (RRC d a <? 256))) as H.
  assert (forallb (fun a => (0 <=? RRC d a) && (RRC d a <? 256))
            (map Z.of_nat (seq 0 256)) = true) as E
    by (destruct d; vm_compute; reflexivity).
  specialize (H E a Ha). cbv beta in H. unfold is_byte. lia.
Qed.

(** ** The RAM stays well formed *)

Lemma wf_set_get g st : wf st -> 0 <= g < 16 -> wf (set_get g st).
Proof. intros [] Hg. constructor; assumption. Qed.

Lemma wf_set_state s st : wf st -> wf (set_state s st).
Proof. intros []. constructor; assumption. Qed.

Lemma wf_set_flags f st : wf st -> wf (set_flags f st).
Proof. intros []. constructor; assumption. Qed.

Lemma wf_set_TR0 t st : wf st -> wf (set_TR0 t st).
Proof. intros []. constructor; assumption. Qed.

Lemma wf_set_data d st : wf st -> is_byte d -> wf (set_data d st).
Proof. intros [] Hd. constructor; assumption. Qed.

Lemma is_byte_0 : is_byte 0.
Proof. unfold is_byte. lia. Qed.

Create HintDb kbd.

#[local] Hint Resolve wf_set_get wf_set_state wf_set_flags wf_set_TR0
  wf_set_data RRC_byte cursor_range wf_data is_byte_0 : kbd.

Lemma wf_InitializeKeyboard st : wf st -> wf (InitializeKeyboard st).
Proof.
  intros []. unfold InitializeKeyboard. constructor; simpl; try assumption; lia.
Qed.

Lemma wf_power_on : wf power_on.
Proof.
  constructor; simpl; try lia; try (unfold is_byte; lia).
  repeat constructor; unfold is_byte; lia.
Qed.

Lemma wf_GetKey st : wf st -> wf (snd (GetKey st)).
Proof.
  intros H. unfold GetKey.
  destruct (m_bKeyGet st =? m_bKeyPut st); simpl; auto with kbd.
Qed.

Lemma wf_PutKey st : wf st -> wf (PutKey st).
Proof.
  intros H. rewrite PutKey_always_saves. unfold SAVEIT.
  destruct H. constructor; simpl.
  - now rewrite length_insert.
  - now apply Forall_insert.
  - assumption.
  - apply cursor_range.
  - assumption.
Qed.

Lemma wf_KEYNXT st : wf st -> wf (KEYNXT st).
Proof. unfold KEYNXT. auto with kbd. Qed.

Lemma wf_FRAERR st : wf st -> wf (FRAERR st).
Proof. unfold FRAERR. auto with kbd. Qed.

Lemma wf_BADPAR st : wf st -> wf (BADPAR st).
Proof. unfold BADPAR. auto with kbd. Qed.

#[local] Hint Resolve wf_KEYNXT wf_FRAERR wf_BADPAR wf_PutKey : kbd.

(** Case analysis on the state byte under [E : KEYBOARD_BIT d st = Some _]:
    one goal for each of the twelve table entries. *)
Ltac case_state st E :=
  unfold KEYBOARD_BIT in E;
  let p := fresh "p" in
  destruct (m_bKeyState st) as [|p|p] eqn:?; simpl in E; try discriminate E;
  repeat (destruct p as [p|p|]; simpl in E; try discriminate E).

Lemma wf_KEYBOARD_BIT d st st' :
  wf st -> KEYBOARD_BIT d st = Some st' -> wf st'.
Proof.
  intros H E. case_state st E; inversion E; subst; clear E;
    unfold START, SDATA, SPARITY, STOPB; try assumption;
    repeat match goal with
           | |- context [if ?c then _ else _] => destruct c
           end;
    auto 8 with kbd.
Qed.

Lemma wf_KEYBOARD_TIMEOUT st : wf st -> wf (KEYBOARD_TIMEOUT st).
Proof. unfold KEYBOARD_TIMEOUT. auto with kbd. Qed.


Lemma GetKey_empty st :
  m_bKeyGet st = m_bKeyPut st -> GetKey st = (-1, st).
Proof. intros E. unfold GetKey. now rewrite E, Z.eqb_refl. Qed.

Lemma pending_0 st :
  wf st -> (pending st = 0%nat <-> m_bKeyGet st = m_bKeyPut st).
Proof.
  intros [_ _ Hg Hp _]. unfold pending, KEYBUFLEN. split; intros H.
  - assert ((m_bKeyPut st - m_bKeyGet st) mod 16 = 0) as E.
    { pose proof (Z.mod_pos_bound (m_bKeyPut st - m_bKeyGet st) 16). lia. }
    revert E. Z.to_euclidean_division_equations. lia.
  - rewrite H, Z.sub_diag. reflexivity.
Qed.

Lemma slot_lt g i : (slot g i < 16)%nat.
Proof.
  unfold slot, KEYBUFLEN.
  pose proof (Z.mod_pos_bound (g + 1 + Z.of_nat i) 16). lia.
Qed.

Lemma slot_next g i :
  slot ((g + 1) mod 16) i = slot g (S i).
Proof.
  unfold slot, KEYBUFLEN. f_equal.
  rewrite <- Z.add_assoc, Zplus_mod_idemp_l. f_equal. lia.
Qed.

Lemma buffer_byte st i :
  wf st -> is_byte (default 0 (m_abKeyBuffer st !! i)).
Proof.
  intros H. destruct (m_abKeyBuffer st !! i) as [x|] eqn:E; simpl.
  - eapply Forall_lookup_1; [apply (wf_buf st H) | exact E].
  - apply is_byte_0.
Qed.

(** A dequeue from a non-empty ring returns the oldest unread byte and
    leaves the rest. *)
Lemma GetKey_next st :
  wf st -> m_bKeyGet st <> m_bKeyPut st ->
  exists k q,
    contents st = k :: q /\ is_byte k /\
    GetKey st = (k, set_get ((m_bKeyGet st + 1) mod 16) st) /\
    contents (set_get ((m_bKeyGet st + 1) mod 16) st) = q /\
    pending (set_get ((m_bKeyGet st + 1) mod 16) st) = Nat.pred (pending st).
Proof.
  intros H Hne.
  assert (pending (set_get ((m_bKeyGet st + 1) mod 16) st) = Nat.pred (pending st)) as Hp.
  { destruct H as [_ _ Hg Hp _]. unfold pending, KEYBUFLEN. simpl.
    apply Nat2Z.inj. rewrite Nat2Z.inj_pred_max.
    pose proof (Z.mod_pos_bound (m_bKeyPut st - (m_bKeyGet st + 1) mod 16) 16).
    pose proof (Z.mod_pos_bound (m_bKeyPut st - m_bKeyGet st) 16).
    rewrite !Z2Nat.id by lia.
    Z.to_euclidean_division_equations. lia. }
  destruct (pending st) as [|n] eqn:En.
  { apply pending_0 in En; [contradiction | assumption]. }
  exists (default 0 (m_abKeyBuffer st !! slot (m_bKeyGet st) 0)),
         (contents (set_get ((m_bKeyGet st + 1) mod 16) st)).
  split_and!.
  - unfold contents. rewrite En, Hp. simpl. f_equal.
    rewrite <- seq_shift, map_map. apply map_ext. intros i.
    now rewrite slot_next.
  - now apply buffer_byte.
  - unfold GetKey. cbv zeta. destruct (Z.eqb_spec (m_bKeyGet st) (m_bKeyPut st)); [contradiction|].
    rewrite next_cursor by apply (wf_get st H). simpl.
    unfold slot, KEYBUFLEN. now rewrite Z.add_0_r.
  - reflexivity.
  - exact Hp.
Qed.

(** With room left, [PutKey] appends the assembled byte. *)
Lemma PutKey_room st :
  wf st -> (pending st < 15)%nat ->
  contents (PutKey st) = contents st ++ [m_bKeyData st] /\
  pending (PutKey st) = S (pending st) /\
  m_bKeyGet (PutKey st) = m_bKeyGet st.
Proof.
  intros H Hroom. rewrite PutKey_always_saves.
  rewrite next_cursor by apply (wf_put st H).
  destruct H as [Hlen _ Hg Hp _].
  assert (pending (SAVEIT ((m_bKeyPut st + 1) mod 16) st) = S (pending st)) as Hpe.
  { revert Hroom. unfold pending, KEYBUFLEN. simpl. intros Hroom.
    apply Nat2Z.inj. rewrite Nat2Z.inj_succ.
    pose proof (Z.mod_pos_bound ((m_bKeyPut st + 1) mod 16 - m_bKeyGet st) 16).
    pose proof (Z.mod_pos_bound (m_bKeyPut st - m_bKeyGet st) 16).
    rewrite !Z2Nat.id by lia.
    assert ((m_bKeyPut st - m_bKeyGet st) mod 16 < 15) by lia.
    Z.to_euclidean_division_equations. lia. }
  split; [|split; [exact Hpe | reflexivity]].
  unfold contents. rewrite Hpe, seq_S, map_app. simpl. f_equal.
  - apply map_ext_in. intros i Hi. apply in_seq in Hi.
    rewrite list_lookup_insert_ne; [reflexivity|].
    unfold slot, pending, KEYBUFLEN in *. 
    pose proof (Z.mod_pos_bound (m_bKeyPut st - m_bKeyGet st) 16).
    intros E. apply Z2Nat.inj in E; try (apply Z.mod_pos_bound; lia).
    revert E. Z.to_euclidean_division_equations. lia.
  - f_equal.
    replace (slot (m_bKeyGet st) (pending st)) with (Z.to_nat ((m_bKeyPut st + 1) mod 16)).
    + rewrite list_lookup_insert_eq; [reflexivity|].
      rewrite Hlen. pose proof (Z.mod_pos_bound (m_bKeyPut st + 1) 16). lia.
    + unfold slot, pending, KEYBUFLEN. f_equal.
      pose proof (Z.mod_pos_bound (m_bKeyPut st - m_bKeyGet st) 16).
      rewrite Z2Nat.id by lia.
      Z.to_euclidean_division_equations. lia.
Qed.

#[local] Arguments Z.testbit : simpl never.
#[local] Arguments RRC : simpl never.
#[local] Arguments odd_parity_bit : simpl never.

Lemma same_ring_contents st st' :
  same_ring st st' -> contents st' = contents st /\ pending st' = pending st.
Proof.
  intros (Hg & Hp & Hb). unfold contents, pending. now rewrite Hg, Hp, Hb.
Qed.

(** The code's parity flag against the sender's parity bit. *)
Lemma PSW_P_odd_parity a : PSW_P a = negb (odd_parity_bit a).
Proof.
  unfold PSW_P, odd_parity_bit, ones, data_bits. cbn [map].
  generalize (Z.testbit a 0), (Z.testbit a 1), (Z.testbit a 2), (Z.testbit a 3),
    (Z.testbit a 4), (Z.testbit a 5), (Z.testbit a 6), (Z.testbit a 7).
  intros [] [] [] [] [] [] [] []; reflexivity.
Qed.

(** Eight right rotations through the carry rebuild the byte. *)
Lemma acc_full b : is_byte b -> acc b 9 = b.
Proof.
  intros Hb.
  pose proof (bytes_forall (fun b => acc b 9 =? b)) as H.
  specialize (H ltac:(vm_compute; reflexivity) b Hb). cbv beta in H. lia.
Qed.

Lemma frame_length b : length (frame b) = 11%nat.
Proof. reflexivity. Qed.

Ltac nat_cases k n :=
  lazymatch n with
  | O => idtac
  | S ?n' => destruct k as [|k]; [ | nat_cases k n' ]
  end.

Lemma frame_step b k d rest st :
  wf st -> is_byte b -> in_frame b k st -> (k < 10)%nat ->
  drop k (frame b) = d :: rest ->
  exists st',
    KEYBOARD_BIT d st = Some st' /\ in_frame b (S k) st' /\
    rest = drop (S k) (frame b) /\ same_ring st st'.
Proof.
  intros Hwf Hb [Hs Hd] Hk Hdrop. unfold KEYBOARD_BIT. rewrite Hs.
  nat_cases k 10%nat; try lia; clear Hk;
    simpl in Hdrop; injection Hdrop as <- <-; simpl Z.of_nat; cbv iota beta;
    eexists; (split; [reflexivity|]).
  10: { unfold SPARITY. rewrite PSW_P_odd_parity, Hd, acc_full by (lia || assumption).
        destruct (odd_parity_bit b); simpl;
          (split; [split; [simpl; rewrite Hs; reflexivity
                          | intros _; simpl; rewrite Hd by lia; reflexivity]
                  | split; [reflexivity | repeat split]]). }
  all: split; [split; [simpl; rewrite Hs; reflexivity
                      | intros _; simpl; try rewrite Hd by lia; reflexivity]
              | split; [reflexivity | repeat split]].
Qed.

Lemma frame_stop b d rest st :
  wf st -> is_byte b -> in_frame b 10 st -> (pending st < 15)%nat ->
  drop 10 (frame b) = d :: rest ->
  exists st',
    KEYBOARD_BIT d st = Some st' /\ m_bKeyState st' = 0 /\ rest = [] /\
    wf st' /\ contents st' = contents st ++ [b] /\
    pending st' = S (pending st).
Proof.
  intros Hwf Hb [Hs Hd] Hroom Hdrop. simpl in Hdrop. injection Hdrop as <- <-.
  unfold KEYBOARD_BIT. rewrite Hs. simpl. eexists. split; [reflexivity|].
  unfold STOPB. simpl.
  set (st1 := set_TR0 false (set_flags (CLR m_fKeyBusy (g_bKeyFlags st)) st)).
  assert (wf st1) as Hwf1 by (subst st1; auto with kbd).
  assert (same_ring st st1) as Hr by (unfold same_ring, st1; simpl; auto).
  apply same_ring_contents in Hr. destruct Hr as [Hc Hp].
  destruct (PutKey_room st1 Hwf1 ltac:(lia)) as (Hc' & Hp' & _).
  split_and!; [reflexivity | reflexivity | auto with kbd | | ].
  - change (contents (PutKey st1) = contents st ++ [b]).
    rewrite Hc', Hc. f_equal. f_equal.
    change (m_bKeyData st = b). rewrite Hd by lia.
    rewrite <- (acc_full b Hb) at 2. reflexivity.
  - change (pending (PutKey st1) = S (pending st)). lia.
Qed.

Lemma received_byte k ks : is_byte k -> received (k :: ks) = k :: received ks.
Proof.
  intros [Hlo Hhi]. unfold received. simpl.
  destruct (Z.eqb_spec k (-1)); [lia | reflexivity].
Qed.

Lemma pending_lt st : (pending st < 16)%nat.
Proof.
  unfold pending, KEYBUFLEN.
  pose proof (Z.mod_pos_bound (m_bKeyPut st - m_bKeyGet st) 16). lia.
Qed.

(** Draining returns the unread bytes, oldest first. *)
Lemma drain_contents n : forall st,
  wf st -> (pending st < n)%nat -> drain n st = contents st.
Proof.
  induction n as [|n IH]; intros st Hwf Hn; [lia|].
  simpl. destruct (Z.eq_dec (m_bKeyGet st) (m_bKeyPut st)) as [E|E].
  - rewrite GetKey_empty by exact E. simpl.
    apply (pending_0 st Hwf) in E. unfold contents. now rewrite E.
  - destruct (GetKey_next st Hwf E) as (k & q & Hc & Hk & HG & Hq & Hp).
    rewrite HG. destruct (Z.eqb_spec k (-1)) as [Ek|Ek].
    { destruct Hk. lia. }
    rewrite Hc. f_equal. rewrite IH; [exact Hq | | ].
    2:{ assert (pending st <> 0%nat) by (rewrite pending_0 by assumption; exact E). lia. }
    apply wf_set_get; [assumption|]. apply Z.mod_pos_bound. lia.
Qed.

Lemma run_dequeues evs : forall st,
  wf st -> edges_of evs = [] ->
  exists ks st',
    run st evs = Some (ks, st') /\ wf st' /\
    m_bKeyState st' = m_bKeyState st /\
    received ks ++ contents st' = contents st.
Proof.
  induction evs as [|[d|] evs IH]; intros st Hwf He.
  - exists [], st. simpl. auto.
  - discriminate He.
  - simpl in He. simpl.
    destruct (Z.eq_dec (m_bKeyGet st) (m_bKeyPut st)) as [E|E].
    + rewrite GetKey_empty by exact E.
      destruct (IH st Hwf He) as (ks & st' & Hr & Hw & Hs & Hc).
      rewrite Hr. exists (-1 :: ks), st'. auto.
    + destruct (GetKey_next st Hwf E) as (k & q & Hc & Hk & HG & Hq & Hp).
      rewrite HG.
      assert (wf (set_get ((m_bKeyGet st + 1) mod 16) st)) as Hwf'.
      { apply wf_set_get; [assumption|]. apply Z.mod_pos_bound. lia. }
      destruct (IH _ Hwf' He) as (ks & st' & Hr & Hw & Hs & Hc').
      rewrite Hr. exists (k :: ks), st'. split_and!; try done.
      rewrite received_byte by assumption. simpl. now rewrite Hc', Hq, Hc.
Qed.

Lemma drop_frame_cons b k :
  (k <= 10)%nat -> exists d rest, drop k (frame b) = d :: rest.
Proof. intros Hk. nat_cases k 11%nat; simpl; eauto. lia. Qed.

Lemma run_frames evs : forall st b k bs,
  wf st -> is_byte b -> Forall is_byte bs -> (k <= 10)%nat ->
  in_frame b k st ->
  edges_of evs = drop k (frame b) ++ concat (map frame bs) ->
  room (pending st) k evs = true ->
  exists ks st',
    run st evs = Some (ks, st') /\ wf st' /\ m_bKeyState st' = 0 /\
    received ks ++ contents st' = contents st ++ b :: bs.
Proof.
  induction evs as [|[d|] evs IH]; intros st b k bs Hwf Hb Hbs Hk Hin He Hroom.
  - destruct (drop_frame_cons b k Hk) as (d & rest & Hd).
    rewrite Hd in He. discriminate He.
  - destruct (drop_frame_cons b k Hk) as (d0 & rest & Hd).
    rewrite Hd in He. simpl in He. injection He as <- He.
    destruct (Nat.eq_dec k 10%nat) as [->|Hne].
    + simpl in Hroom. apply andb_true_iff in Hroom. destruct Hroom as [Hlt Hroom].
      apply Nat.ltb_lt in Hlt.
      destruct (frame_stop b d rest st Hwf Hb Hin Hlt Hd)
        as (st' & HK & Hs & -> & Hwf' & Hc & Hp).
      simpl. rewrite HK. simpl in He. rewrite <- Hp in Hroom.
      destruct bs as [|b' bs'].
      * destruct (run_dequeues evs st' Hwf' He) as (ks & st'' & Hr & Hw & Hs' & Hc').
        exists ks, st''. split_and!; try done; [congruence|].
        now rewrite Hc', Hc.
      * apply Forall_cons in Hbs. destruct Hbs as [Hb' Hbs'].
        destruct (IH st' b' 0%nat bs' Hwf' Hb' Hbs' ltac:(lia)) as (ks & st'' & Hr & Hw & Hs' & Hc').
        { split; [exact Hs | lia]. }
        { exact He. }
        { exact Hroom. }
        exists ks, st''. split_and!; try done.
        rewrite Hc', Hc, <- app_assoc. reflexivity.
    + destruct (frame_step b k d rest st Hwf Hb Hin ltac:(lia) Hd)
        as (st' & HK & Hin' & -> & Hr).
      pose proof (wf_KEYBOARD_BIT _ _ _ Hwf HK) as Hwf'.
      apply same_ring_contents in Hr. destruct Hr as [Hc Hp].
      simpl in Hroom. apply Nat.eqb_neq in Hne. rewrite Hne in Hroom.
      rewrite <- Hp in Hroom.
      destruct (IH st' b (S k) bs Hwf' Hb Hbs ltac:(apply Nat.eqb_neq in Hne; lia) Hin' He Hroom)
        as (ks & st'' & Hr & Hw & Hs' & Hc').
      simpl. rewrite HK. exists ks, st''. split_and!; try done.
      now rewrite Hc', Hc.
  - simpl in He, Hroom. simpl.
    destruct (Z.eq_dec (m_bKeyGet st) (m_bKeyPut st)) as [E|E].
    + rewrite GetKey_empty by exact E.
      pose proof E as E0. apply (pending_0 st Hwf) in E0. rewrite E0 in Hroom.
      simpl in Hroom. rewrite <- E0 in Hroom.
      destruct (IH st b k bs Hwf Hb Hbs Hk Hin He Hroom) as (ks & st' & Hr & Hw & Hs & Hc).
      rewrite Hr. exists (-1 :: ks), st'. auto.
    + destruct (GetKey_next st Hwf E) as (k0 & q & Hc & Hk0 & HG & Hq & Hp).
      rewrite HG.
      assert (wf (set_get ((m_bKeyGet st + 1) mod 16) st)) as Hwf'.
      { apply wf_set_get; [assumption|]. apply Z.mod_pos_bound. lia. }
      rewrite <- Hp in Hroom.
      destruct (IH _ b k bs Hwf' Hb Hbs Hk Hin He Hroom) as (ks & st' & Hr & Hw & Hs & Hc').
      rewrite Hr. exists (k0 :: ks), st'. split_and!; try done.
      rewrite received_byte by assumption. simpl. now rewrite Hc', Hq, Hc.
Qed.


(** ** Flag bits *)

Lemma testbit_SETB_eq n f : 0 <= n -> Z.testbit (SETB n f) n = true.
Proof. intros Hn. unfold SETB. now apply Z.setbit_eq. Qed.

Lemma testbit_SETB_neq n m f :
  0 <= n -> n <> m -> Z.testbit (SETB n f) m = Z.testbit f m.
Proof. intros Hn Hm. unfold SETB. now apply Z.setbit_neq. Qed.

Lemma testbit_CLR_eq n f : Z.testbit (CLR n f) n = false.
Proof. unfold CLR. apply Z.clearbit_eq. Qed.

Lemma testbit_CLR_neq n m f :
  n <> m -> Z.testbit (CLR n f) m = Z.testbit f m.
Proof. intros Hm. unfold CLR. now apply Z.clearbit_neq. Qed.

Lemma testbit_SETB_keeps n m f :
  0 <= n -> Z.testbit f m = true -> Z.testbit (SETB n f) m = true.
Proof.
  intros Hn Hm. unfold SETB. rewrite Z.setbit_eqb by assumption.
  rewrite Hm. apply orb_true_r.
Qed.

Lemma keeps_errors_refl st : keeps_errors st st.
Proof. intros bit _ H. exact H. Qed.

Lemma keeps_errors_SETB n st st' :
  0 <= n -> g_bKeyFlags st' = SETB n (g_bKeyFlags st) -> keeps_errors st st'.
Proof.
  intros Hn E bit _ H. rewrite E. now apply testbit_SETB_keeps.
Qed.

Lemma keeps_errors_CLR_busy st st' :
  g_bKeyFlags st' = CLR m_fKeyBusy (g_bKeyFlags st) -> keeps_errors st st'.
Proof.
  intros E bit Hb H. rewrite E, testbit_CLR_neq; [exact H|].
  unfold m_fKeyBusy. lia.
Qed.

Lemma keeps_errors_trans st1 st2 st3 :
  keeps_errors st1 st2 -> keeps_errors st2 st3 -> keeps_errors st1 st3.
Proof. intros H1 H2 bit Hb H. apply H2; [exact Hb|]. now apply H1. Qed.

Lemma keeps_errors_flags st st' :
  g_bKeyFlags st' = g_bKeyFlags st -> keeps_errors st st'.
Proof. intros E bit _ H. now rewrite E. Qed.

(** No routine of the receiver clears a sticky error bit. *)
Lemma GetKey_keeps_errors st : keeps_errors st (snd (GetKey st)).
Proof.
  apply keeps_errors_flags. unfold GetKey.
  destruct (m_bKeyGet st =? m_bKeyPut st); reflexivity.
Qed.

Lemma PutKey_keeps_errors st : keeps_errors st (PutKey st).
Proof.
  apply keeps_errors_flags. rewrite PutKey_always_saves. reflexivity.
Qed.

Lemma KEYBOARD_TIMEOUT_keeps_errors st : keeps_errors st (KEYBOARD_TIMEOUT st).
Proof.
  apply keeps_errors_trans
    with (set_flags (SETB m_fKeyTimeout (g_bKeyFlags st)) st).
  - apply keeps_errors_SETB with m_fKeyTimeout; [unfold m_fKeyTimeout; lia | reflexivity].
  - apply keeps_errors_CLR_busy. reflexivity.
Qed.

Lemma KEYBOARD_BIT_keeps_errors d st st' :
  KEYBOARD_BIT d st = Some st' -> keeps_errors st st'.
Proof.
  intros E. case_state st E; inversion E; subst; clear E;
    try apply keeps_errors_refl;
    unfold START, SDATA, SPARITY, STOPB;
    repeat match goal with
           | |- context [if ?c then _ else _] => destruct c
           end;
    try (apply keeps_errors_flags; reflexivity);
    try (eapply keeps_errors_SETB; [|reflexivity]; unfold m_fKeyFraming, m_fKeyParity, m_fKeyBusy; lia).
  - apply keeps_errors_trans
      with (set_flags (CLR m_fKeyBusy (g_bKeyFlags st)) st).
    + apply keeps_errors_CLR_busy. reflexivity.
    + apply keeps_errors_SETB with m_fKeyFraming; [unfold m_fKeyFraming; lia | reflexivity].
  - apply keeps_errors_trans
      with (set_flags (CLR m_fKeyBusy (g_bKeyFlags st)) st).
    + apply keeps_errors_CLR_busy. reflexivity.
    + apply keeps_errors_flags. simpl. rewrite PutKey_always_saves. reflexivity.
Qed.

(** ** The handler is total on the states it can reach *)

Lemma KEYBOARD_BIT_total d st :
  0 <= m_bKeyState st <= 11 ->
  exists st', KEYBOARD_BIT d st = Some st' /\ 0 <= m_bKeyState st' <= 11.
Proof.
  intros H. unfold KEYBOARD_BIT.
  assert (m_bKeyState st = 0 \/ m_bKeyState st = 1 \/ m_bKeyState st = 2 \/
          m_bKeyState st = 3 \/ m_bKeyState st = 4 \/ m_bKeyState st = 5 \/
          m_bKeyState st = 6 \/ m_bKeyState st = 7 \/ m_bKeyState st = 8 \/
          m_bKeyState st = 9 \/ m_bKeyState st = 10 \/ m_bKeyState st = 11)
    as C by lia.
  repeat destruct C as [C|C]; rewrite C; eexists; (split; [reflexivity|]);
    unfold START, SDATA, SPARITY, STOPB;
    repeat match goal with
           | |- context [if ?c then _ else _] => destruct c
           end;
    simpl; rewrite ?C; unfold INC; try lia;
    Z.to_euclidean_division_equations; lia.
Qed.

(** ** The enqueue against a full buffer *)

(** C1 (the code departs from the claim).  The claim: when the next put
    cursor equals the get cursor, [PutKey] sets Overflow, drops the new
    byte and leaves cursor and entries alone, so the 15 stored bytes stay
    dequeuable in order.  The code compares the next put cursor with the
    put cursor it was computed from, which never match: for every state
    [PutKey] takes its [SAVEIT] exit and leaves the flags byte as it was.
    At [full15] (reached from power on by fifteen frames and ten edges
    of a sixteenth; bytes 1..15 unread, next put cursor equal to the get
    cursor, 0x1C waiting for its stop bit) the stop bit stores 0x1C, the
    Overflow flag stays clear, the cursors collide and the next dequeue
    finds the buffer empty: all fifteen bytes are lost. *)
Theorem PutKey_full_buffer_overwrites :
  (forall st,
     PutKey st = SAVEIT (ANL (INC (m_bKeyPut st)) (KEYBUFLEN - 1)) st /\
     g_bKeyFlags (PutKey st) = g_bKeyFlags st) /\
  run_edges power_on (concat (map frame fifteen) ++ firstn 10 (frame 0x1C))
    = Some full15 /\
  wf full15 /\
  contents full15 = fifteen /\
  ANL (INC (m_bKeyPut full15)) (KEYBUFLEN - 1) = m_bKeyGet full15 /\
  exists st',
    KEYBOARD_BIT true full15 = Some st' /\
    Z.testbit (g_bKeyFlags st') m_fKeyOverflow = false /\
    m_bKeyPut st' = m_bKeyGet st' /\
    m_abKeyBuffer st' !! 0%nat = Some 0x1C /\
    GetKey st' = (-1, st') /\
    drain 16 st' = [].
Proof.
  split_and!.
  - intros st. split; [apply PutKey_always_saves|].
    rewrite PutKey_always_saves. reflexivity.
  - vm_compute. reflexivity.
  - constructor; simpl; try lia; [|unfold is_byte; lia].
    repeat constructor; unfold is_byte; lia.
  - reflexivity.
  - reflexivity.
  - eexists. split; [reflexivity|]. split_and!; reflexivity.
Qed.

(** ** Well-formed frames *)

(** C2, the claim as stated fails: sixteen well-formed frames sent to the
    freshly initialised receiver with no dequeue in between are all
    accepted, and then the buffer delivers none of the sixteen bytes. *)
Lemma sixteen_frames_not_delivered :
  Forall is_byte sixteen /\
  exists st',
    run power_on (map Edge (concat (map frame sixteen))) = Some ([], st') /\
    m_bKeyState st' = 0 /\ g_bKeyFlags st' = 0 /\
    drain 16 st' = [] /\ drain 16 st' <> sixteen.
Proof.
  split.
  - repeat constructor; unfold is_byte; lia.
  - eexists. split; [vm_compute; reflexivity|].
    split_and!; try reflexivity. discriminate.
Qed.

(** C2 (amended).  Take any schedule that interleaves calls of [GetKey]
    with the edges of a sequence of well-formed frames for the bytes
    [bs], presented to an idle receiver, such that no stop bit arrives
    while 15 bytes are unread.  Every edge is accepted, and the bytes
    returned by the dequeues of the schedule followed by those returned
    by draining the buffer afterwards are the bytes that were unread at
    the start followed by exactly [bs], in transmission order. *)
Theorem frames_delivered_in_order st bs evs :
  wf st -> m_bKeyState st = 0 -> Forall is_byte bs ->
  edges_of evs = concat (map frame bs) ->
  room (pending st) 0 evs = true ->
  exists ks st',
    run st evs = Some (ks, st') /\
    m_bKeyState st' = 0 /\
    received ks ++ drain 16 st' = contents st ++ bs.
Proof.
  intros Hwf Hs Hbs He Hroom.
  destruct bs as [|b bs].
  - destruct (run_dequeues evs st Hwf He) as (ks & st' & Hr & Hw & Hs' & Hc).
    exists ks, st'. split_and!; [exact Hr | congruence |].
    rewrite drain_contents by (try assumption; apply pending_lt).
    rewrite Hc. now rewrite app_nil_r.
  - apply Forall_cons in Hbs. destruct Hbs as [Hb Hbs].
    destruct (run_frames evs st b 0%nat bs Hwf Hb Hbs ltac:(lia))
      as (ks & st' & Hr & Hw & Hs' & Hc).
    + split; [exact Hs | lia].
    + exact He.
    + exact Hroom.
    + exists ks, st'. split_and!; [exact Hr | exact Hs' |].
      rewrite drain_contents by (try assumption; apply pending_lt).
      exact Hc.
Qed.

Lemma frames_delivered_in_order_witness :
  exists ks st',
    run power_on two_frames = Some (ks, st') /\
    m_bKeyState st' = 0 /\
    received ks ++ drain 16 st' = [0x1C; 0xF0].
Proof.
  apply (frames_delivered_in_order power_on [0x1C; 0xF0] two_frames).
  - exact wf_power_on.
  - reflexivity.
  - repeat constructor; unfold is_byte; lia.
  - reflexivity.
  - reflexivity.
Defined.

(** ** The parity state *)

(** Once in state 11 the edge interrupt changes nothing. *)
Lemma error_state_absorbs es : forall st,
  m_bKeyState st = 11 -> run_edges st es = Some st.
Proof.
  induction es as [|d es IH]; intros st Hs; [reflexivity|].
  simpl. unfold KEYBOARD_BIT. rewrite Hs. now apply IH.
Qed.

(** C3.  In the parity state, a parity bit that is not the odd-parity
    bit of the accumulated byte sets the Parity flag and moves the
    receiver to state 11, where every later edge leaves the whole RAM
    (cursors and buffer included) as it is, so the byte is never stored;
    a parity bit that matches moves the receiver to the stop-bit state
    10 with flags untouched.  Neither case touches the buffer. *)
Theorem parity_checked st d :
  m_bKeyState st = 9 ->
  exists st',
    KEYBOARD_BIT d st = Some st' /\ same_ring st st' /\
    if Bool.eqb d (odd_parity_bit (m_bKeyData st))
    then m_bKeyState st' = 10 /\ g_bKeyFlags st' = g_bKeyFlags st
    else Z.testbit (g_bKeyFlags st') m_fKeyParity = true /\
         m_bKeyState st' = 11 /\
         forall es, run_edges st' es = Some st'.
Proof.
  intros Hs. unfold KEYBOARD_BIT. rewrite Hs. eexists. split; [reflexivity|].
  unfold SPARITY. rewrite PSW_P_odd_parity.
  destruct d, (odd_parity_bit (m_bKeyData st)); simpl;
    (split; [repeat split|]).
  - split; [rewrite Hs|]; reflexivity.
  - split_and!; [now apply testbit_SETB_eq | reflexivity |].
    intros es. now apply error_state_absorbs.
  - split_and!; [now apply testbit_SETB_eq | reflexivity |].
    intros es. now apply error_state_absorbs.
  - split; [rewrite Hs|]; reflexivity.
Qed.

Lemma parity_checked_witness :
  exists st',
    KEYBOARD_BIT true at_parity = Some st' /\ same_ring at_parity st' /\
    Z.testbit (g_bKeyFlags st') m_fKeyParity = true /\
    m_bKeyState st' = 11 /\
    forall es, run_edges st' es = Some st'.
Proof.
  exact (parity_checked at_parity true eq_refl).
Defined.

(** ** The timeout guard *)

Lemma same_ring_refl st : same_ring st st.
Proof. repeat split. Qed.

Lemma same_ring_trans st1 st2 st3 :
  same_ring st1 st2 -> same_ring st2 st3 -> same_ring st1 st3.
Proof.
  intros (G1 & P1 & B1) (G2 & P2 & B2). repeat split; congruence.
Qed.

(** An accepted start bit starts timer 0 and raises Busy. *)
Lemma START_arms st :
  m_bKeyState st = 0 ->
  KEYBOARD_BIT false st = Some (START false st) /\
  armed (START false st) /\ m_bKeyState (START false st) = 1 /\
  same_ring st (START false st).
Proof.
  intros Hs. unfold KEYBOARD_BIT. rewrite Hs.
  split; [reflexivity|]. split; [|split; [|repeat split]].
  - split; [reflexivity|]. simpl. apply testbit_SETB_eq. unfold m_fKeyBusy. lia.
  - simpl. rewrite Hs. reflexivity.
Qed.

(** The stop bit edge stops the timer and drops Busy. *)
Lemma STOPB_disarms d st :
  m_bKeyState st = 10 ->
  exists st', KEYBOARD_BIT d st = Some st' /\ TR0 st' = false /\
              Z.testbit (g_bKeyFlags st') m_fKeyBusy = false.
Proof.
  intros Hs. unfold KEYBOARD_BIT. rewrite Hs. eexists. split; [reflexivity|].
  unfold STOPB. destruct d; simpl.
  - rewrite PutKey_always_saves. simpl. split; [reflexivity|apply testbit_CLR_eq].
  - split; [reflexivity|]. rewrite testbit_SETB_neq; [apply testbit_CLR_eq| |];
      unfold m_fKeyFraming, m_fKeyBusy; lia.
Qed.

(** An edge that is not the stop bit edge keeps cursors and buffer, keeps
    the timer running, and moves to the next state or to state 11. *)
Lemma edge_before_stop d st :
  0 <= m_bKeyState st <= 9 \/ m_bKeyState st = 11 ->
  exists st',
    KEYBOARD_BIT d st = Some st' /\ same_ring st st' /\
    (m_bKeyState st' = m_bKeyState st + 1 /\ m_bKeyState st <= 9 \/
     m_bKeyState st' = 11) /\
    (1 <= m_bKeyState st -> armed st -> armed st').
Proof.
  intros H. unfold KEYBOARD_BIT.
  assert (m_bKeyState st = 0 \/ m_bKeyState st = 1 \/ m_bKeyState st = 2 \/
          m_bKeyState st = 3 \/ m_bKeyState st = 4 \/ m_bKeyState st = 5 \/
          m_bKeyState st = 6 \/ m_bKeyState st = 7 \/ m_bKeyState st = 8 \/
          m_bKeyState st = 9 \/ m_bKeyState st = 11)
    as C by lia.
  repeat destruct C as [C|C]; rewrite C; eexists; (split; [reflexivity|]);
    unfold START, SDATA, SPARITY;
    repeat match goal with
           | |- context [if ?c then _ else _] => destruct c
           end;
    (split; [repeat split|]);
    (split; [simpl; rewrite ?C; (left; split; [reflexivity|lia]) || (right; reflexivity)|]);
    try (intros; lia);
    intros _ [Ht Hb]; (split; [exact Ht|]); simpl; try exact Hb;
    apply testbit_SETB_keeps; try exact Hb; unfold m_fKeyParity; lia.
Qed.

Lemma frame_attempt es : forall st,
  (0 <= m_bKeyState st /\ Z.of_nat (length es) + m_bKeyState st <= 10) \/
  m_bKeyState st = 11 ->
  exists st1,
    run_edges st es = Some st1 /\ same_ring st st1 /\
    0 <= m_bKeyState st1 <= 11 /\
    (1 <= m_bKeyState st -> 1 <= m_bKeyState st1 /\ (armed st -> armed st1)).
Proof.
  induction es as [|d es IH]; intros st H.
  - exists st. split; [reflexivity|]. split; [apply same_ring_refl|].
    split; [simpl in H; lia|]. intros H1. split; [exact H1 | trivial].
  - simpl length in H. rewrite Nat2Z.inj_succ in H.
    destruct (edge_before_stop d st ltac:(lia)) as (st' & HK & Hr & Hs & Ha).
    destruct (IH st' ltac:(lia)) as (st1 & HR & Hr1 & Hs1 & Ha1).
    exists st1. simpl. rewrite HK.
    split; [exact HR|]. split; [eapply same_ring_trans; eassumption|].
    split; [exact Hs1|].
    intros H1. destruct Ha1 as [Hge Ha1]; [lia|].
    split; [exact Hge|]. intros Harm. now apply Ha1, Ha.
Qed.

Lemma KEYBOARD_TIMEOUT_effect st :
  Z.testbit (g_bKeyFlags (KEYBOARD_TIMEOUT st)) m_fKeyTimeout = true /\
  Z.testbit (g_bKeyFlags (KEYBOARD_TIMEOUT st)) m_fKeyBusy = false /\
  m_bKeyState (KEYBOARD_TIMEOUT st) = 0 /\
  same_ring st (KEYBOARD_TIMEOUT st).
Proof.
  unfold KEYBOARD_TIMEOUT. simpl. split_and!.
  - rewrite testbit_CLR_neq by (unfold m_fKeyBusy, m_fKeyTimeout; lia).
    apply testbit_SETB_eq. unfold m_fKeyTimeout. lia.
  - apply testbit_CLR_eq.
  - reflexivity.
  - repeat split.
Qed.

(** C4.  The timer 0 handler, entered in any state whatever, sets the
    Timeout flag, clears Busy, puts the state byte back to 0 and touches
    neither cursor nor any buffer byte.  A frame attempt -- an accepted
    start bit followed by at most nine further edges of any levels, so
    that the stop bit edge has not come -- leaves the receiver in one of
    the states 1 to 11 with the timer running and Busy set, and the
    timeout then returns it to Idle with cursors and buffer exactly as
    before the start bit: nothing was enqueued for the attempt.  When
    the attempt has reached the stop-bit state, the stop bit edge stops
    the timer and clears Busy. *)
Theorem timeout_forces_idle st es sx :
  m_bKeyState st = 0 -> (length es <= 9)%nat ->
  (Z.testbit (g_bKeyFlags (KEYBOARD_TIMEOUT sx)) m_fKeyTimeout = true /\
   Z.testbit (g_bKeyFlags (KEYBOARD_TIMEOUT sx)) m_fKeyBusy = false /\
   m_bKeyState (KEYBOARD_TIMEOUT sx) = 0 /\
   same_ring sx (KEYBOARD_TIMEOUT sx)) /\
  exists st1,
    run_edges st (false :: es) = Some st1 /\
    1 <= m_bKeyState st1 <= 11 /\ armed st1 /\
    Z.testbit (g_bKeyFlags (KEYBOARD_TIMEOUT st1)) m_fKeyTimeout = true /\
    Z.testbit (g_bKeyFlags (KEYBOARD_TIMEOUT st1)) m_fKeyBusy = false /\
    m_bKeyState (KEYBOARD_TIMEOUT st1) = 0 /\
    same_ring st (KEYBOARD_TIMEOUT st1) /\
    (m_bKeyState st1 = 10 ->
     exists st2, KEYBOARD_BIT true st1 = Some st2 /\ TR0 st2 = false /\
                 Z.testbit (g_bKeyFlags st2) m_fKeyBusy = false).
Proof.
  intros Hs Hlen. split; [apply KEYBOARD_TIMEOUT_effect|].
  destruct (START_arms st Hs) as (HK & Harm & Hs1 & Hr).
  destruct (frame_attempt es (START false st) ltac:(lia))
    as (st1 & HR & Hr1 & Hrange & Hkeep).
  destruct Hkeep as [Hge Harm1]; [lia|].
  destruct (KEYBOARD_TIMEOUT_effect st1) as (Ht & Hb & Hz & Hr2).
  exists st1. simpl. rewrite HK.
  split; [exact HR|]. split; [lia|]. split; [now apply Harm1|].
  split; [exact Ht|]. split; [exact Hb|]. split; [exact Hz|].
  split; [|apply STOPB_disarms].
  eapply same_ring_trans; [exact Hr|]. eapply same_ring_trans; eassumption.
Qed.

Lemma timeout_forces_idle_witness :
  exists st1,
    run_edges power_on [false; false; false; true; true] = Some st1 /\
    1 <= m_bKeyState st1 <= 11 /\ armed st1 /\
    Z.testbit (g_bKeyFlags (KEYBOARD_TIMEOUT st1)) m_fKeyTimeout = true /\
    Z.testbit (g_bKeyFlags (KEYBOARD_TIMEOUT st1)) m_fKeyBusy = false /\
    m_bKeyState (KEYBOARD_TIMEOUT st1) = 0 /\
    same_ring power_on (KEYBOARD_TIMEOUT st1) /\
    (m_bKeyState st1 = 10 ->
     exists st2, KEYBOARD_BIT true st1 = Some st2 /\ TR0 st2 = false /\
                 Z.testbit (g_bKeyFlags st2) m_fKeyBusy = false).
Proof.
  refine (proj2 (timeout_forces_idle power_on [false; false; true; true]
                   power_on eq_refl _)).
  simpl. lia.
Defined.


End KeyboardProofs.

(** * Properties of host.c *)

Module HostProofs.
Import I8051 Keyboard KeyboardProofs Host.

#[local] Arguments LOBYTE : simpl never.
#[local] Arguments Z.testbit : simpl never.

(** ** Pause/Break *)

Lemma WaitKey_cons k ks f o :
  WaitKey (mkWorld (k :: ks) f o) = Ret (LOBYTE k) (mkWorld ks f o).
Proof. reflexivity. Qed.

(** Reading a tail that is all there. *)
Lemma expect_match tail : forall k ks f o,
  Forall (fun t => LOBYTE t = t) tail ->
  expect tail k (mkWorld (tail ++ ks) f o) = k (mkWorld ks f o).
Proof.
  induction tail as [|t tail IH]; intros k ks f o Hb; [reflexivity|].
  apply Forall_cons in Hb. destruct Hb as [Ht Hb].
  simpl. unfold bind at 1. rewrite WaitKey_cons, Ht, Z.eqb_refl. simpl.
  now apply IH.
Qed.

(** Reading a tail whose byte number [i] is wrong. *)
Lemma expect_mismatch tail : forall i x rest k f o,
  (i < length tail)%nat ->
  Forall (fun t => LOBYTE t = t) tail ->
  LOBYTE x <> nth i tail 0 ->
  expect tail k (mkWorld (firstn i tail ++ x :: rest) f o)
    = Ret tt (mkWorld rest f o).
Proof.
  induction tail as [|t tail IH]; intros i x rest k f o Hi Hb Hx;
    [simpl in Hi; lia|].
  apply Forall_cons in Hb. destruct Hb as [Ht Hb].
  destruct i as [|i]; simpl in Hx |- *; unfold bind at 1; rewrite WaitKey_cons.
  - apply Z.eqb_neq in Hx. rewrite Hx. reflexivity.
  - rewrite Ht, Z.eqb_refl. simpl. apply IH; [simpl in Hi; lia | assumption..].
Qed.

Lemma pause_tail_bytes : Forall (fun t => LOBYTE t = t) pause_tail.
Proof. repeat constructor. Qed.

(** C5.  After 0xE1 the decoder compares the following bytes, in order,
    with 0x14 0x77 0xE1 0xF0 0x14 0xF0 0x77.  When all seven match, the
    turn sends exactly one byte, KEY_BREAK (0x80).  When the byte at
    position [i] differs, the turn ends right after taking that byte: it
    has sent nothing, the modifier flags are as before (the decoder has
    no access to the receiver's error flags), and the loop goes on with
    the byte that follows the mismatching one. *)
Theorem pause_break_decoded table swap flags out rest i x n :
  (i < 7)%nat -> LOBYTE x <> nth i pause_tail 0 ->
  ConvertKeys_turn table swap (mkWorld (0xE1 :: pause_tail ++ rest) flags out)
    = Ret tt (mkWorld rest flags (out ++ [KEY_BREAK])) /\
  KEY_BREAK = 0x80 /\
  ConvertKeys_turn table swap
      (mkWorld (0xE1 :: firstn i pause_tail ++ x :: rest) flags out)
    = Ret tt (mkWorld rest flags out) /\
  ConvertKeys_loop table swap (S n)
      (mkWorld (0xE1 :: firstn i pause_tail ++ x :: rest) flags out)
    = ConvertKeys_loop table swap n (mkWorld rest flags out).
Proof.
  intros Hi Hx.
  assert (forall l,
            ConvertKeys_turn table swap (mkWorld (0xE1 :: l) flags out)
            = expect pause_tail (SendHost KEY_BREAK) (mkWorld l flags out))
    as Hhead by reflexivity.
  assert (ConvertKeys_turn table swap
            (mkWorld (0xE1 :: firstn i pause_tail ++ x :: rest) flags out)
          = Ret tt (mkWorld rest flags out)) as Hturn.
  { rewrite Hhead. apply expect_mismatch;
      [exact Hi | exact pause_tail_bytes | exact Hx]. }
  split_and!; [ | reflexivity | exact Hturn | ].
  - rewrite Hhead, expect_match by exact pause_tail_bytes. reflexivity.
  - cbn [ConvertKeys_loop]. now rewrite Hturn.
Qed.

Lemma pause_break_decoded_witness :
  ConvertKeys_turn no_table false
      (mkWorld [0xE1; 0x14; 0x77; 0xE1; 0xF0; 0x14; 0xF0; 0x77; 0x1C] 0 [])
    = Ret tt (mkWorld [0x1C] 0 [0x80]) /\
  ConvertKeys_turn no_table false
      (mkWorld [0xE1; 0x14; 0x77; 0xE1; 0xF0; 0x15; 0x1C] 0 [])
    = Ret tt (mkWorld [0x1C] 0 []).
Proof.
  destruct (pause_break_decoded no_table false 0 [] [0x1C] 4 0x15 0) as (H1 & _ & H2 & _).
  - simpl. lia.
  - vm_compute. discriminate.
  - split; [exact H1 | exact H2].
Defined.

(** ** Modifier bits *)

Lemma testbit_assign_bit n v f m :
  0 <= n ->
  Z.testbit (assign_bit n v f) m = if n =? m then v else Z.testbit f m.
Proof.
  intros Hn. unfold assign_bit. destruct v.
  - rewrite Z.setbit_eqb by assumption. now destruct (n =? m).
  - rewrite Z.clearbit_eqb. destruct (n =? m); simpl;
      [apply andb_false_r | apply andb_true_r].
Qed.

(** Flipping a bit twice gives the byte back. *)
Lemma assign_bit_toggle_twice n f :
  0 <= n ->
  let f' := assign_bit n (negb (Z.testbit f n)) f in
  assign_bit n (negb (Z.testbit f' n)) f' = f.
Proof.
  intros Hn f'. apply Z.bits_inj'. intros m Hm. subst f'.
  rewrite !testbit_assign_bit by assumption.
  rewrite Z.eqb_refl. destruct (Z.eqb_spec n m) as [->|]; [|reflexivity].
  now rewrite negb_involutive.
Qed.

(** ** ASCII resolution *)

Lemma shift_index_bits flags :
  Z.testbit (shift_index flags) 0
    = Z.testbit flags m_fLeftShiftDown || Z.testbit flags m_fRightShiftDown /\
  Z.testbit (shift_index flags) 1 = Z.testbit flags m_fControlDown /\
  0 <= shift_index flags < 4.
Proof.
  unfold shift_index.
  destruct (Z.testbit flags m_fLeftShiftDown || Z.testbit flags m_fRightShiftDown),
    (Z.testbit flags m_fControlDown); vm_compute; intuition discriminate.
Qed.

(** The macros [toupper] and [islower] of host.c on a seven bit
    character. *)
Lemma resolved_char caps e :
  is_byte e ->
  (if caps && islower (Z.land e 0x7F)
   then toupper (Z.land e 0x7F) else Z.land e 0x7F)
  = resolved caps e.
Proof.
  intros He.
  pose proof (bytes_forall (fun e =>
    ((if caps && islower (Z.land e 0x7F)
      then toupper (Z.land e 0x7F) else Z.land e 0x7F)
     =? resolved caps e))) as H.
  assert (forallb (fun e =>
    ((if caps && islower (Z.land e 0x7F)
      then toupper (Z.land e 0x7F) else Z.land e 0x7F)
     =? resolved caps e)) (map Z.of_nat (seq 0 256)) = true) as E
    by (destruct caps; vm_compute; reflexivity).
  specialize (H E e He). cbv beta in H. now apply Z.eqb_eq.
Qed.

Lemma LOBYTE_byte x : is_byte (LOBYTE x).
Proof.
  unfold LOBYTE, is_byte. change 0xFF with (Z.ones 8).
  rewrite Z.land_ones by lia. apply Z.mod_pos_bound. lia.
Qed.

(** C6, the claim as stated fails: with a table whose entry for the A key
    is 0xE1, no modifier held and CapsLock off, a press of 0x1C sends
    0x61, not the entry 0xE1. *)
Lemma high_entry_not_sent_as_is :
  LOBYTE (high_table 0x1C (shift_index 0)) = 0xE1 /\
  Z.testbit 0 m_fCapsLockOn = false /\
  DoASCII high_table 0x1C false (mkWorld [] 0 [])
    = Ret true (mkWorld [] 0 [0x61]) /\
  DoASCII high_table 0x1C false (mkWorld [] 0 [])
    <> Ret true (mkWorld [] 0 [0xE1]).
Proof. split_and!; try reflexivity. discriminate. Qed.

(** C6 (amended).  For a key code inside the table, ASCII resolution
    computes a column index whose bit 0 is set iff a Shift key is held and
    whose bit 1 is set iff Control is held, and reads the entry of the
    table at that row and column.  A zero entry is not handled and
    nothing is sent.  On a release with a nonzero entry the key is
    handled and nothing is sent.  On a press with a nonzero entry the
    low seven bits of the entry are sent, lowered by 32 to the upper
    case letter when CapsLock is on and they are a lower case letter. *)
Theorem ascii_resolution table bKey fRelease ks flags out :
  0 <= bKey < 128 ->
  let w := mkWorld ks flags out in
  let col := shift_index flags in
  let e := LOBYTE (table bKey col) in
  (Z.testbit col 0
     = Z.testbit flags m_fLeftShiftDown || Z.testbit flags m_fRightShiftDown /\
   Z.testbit col 1 = Z.testbit flags m_fControlDown /\
   0 <= col < 4) /\
  DoASCII table bKey fRelease w =
    if e =? 0 then Ret false w
    else if fRelease then Ret true w
    else Ret true
           (mkWorld ks flags
              (out ++ [resolved (Z.testbit flags m_fCapsLockOn) e])).
Proof.
  intros Hk. cbv zeta. split; [apply shift_index_bits|].
  unfold DoASCII, bind, read_table, get_bit, SendHost, ret.
  cbv zeta. cbn [keys m_bShiftFlags sent].
  destruct (Z.ltb_spec bKey 128) as [_|]; [|lia].
  set (e := LOBYTE (table bKey (shift_index flags))).
  destruct (e =? 0); [reflexivity|].
  destruct fRelease; [reflexivity|].
  cbn [keys m_bShiftFlags sent].
  rewrite (resolved_char (Z.testbit flags m_fCapsLockOn) e (LOBYTE_byte _)).
  reflexivity.
Qed.

Lemma ascii_resolution_witness :
  DoASCII a_table 0x1C false (mkWorld [] 8 []) = Ret true (mkWorld [] 8 [0x41]).
Proof.
  refine (proj2 (ascii_resolution a_table 0x1C false [] 8 [] _)).
  lia.
Defined.

(** ** CapsLock *)

(** C7, the claim as stated fails: with the CapsLock/Control swap on, a
    press of 0x58 leaves the CapsLock flag alone and raises ControlDown,
    and a release of 0x58 changes the modifier state (it drops
    ControlDown). *)
Lemma swapped_0x58_is_control :
  ConvertKeys_turn no_table true (mkWorld [0x58] 0 [])
    = Ret tt (mkWorld [] 4 []) /\
  Z.testbit 4 m_fCapsLockOn = Z.testbit 0 m_fCapsLockOn /\
  Z.testbit 4 m_fControlDown = true /\
  ConvertKeys_turn no_table true (mkWorld [0xF0; 0x58] 4 [])
    = Ret tt (mkWorld [] 0 []) /\
  0 <> 4.
Proof. split_and!; try reflexivity. discriminate. Qed.

(** C7 (amended).  With the CapsLock/Control swap off: a turn that takes
    a non-release 0x58 flips the CapsLock flag, leaves every other
    modifier bit as it was and sends nothing; two such turns in a row
    give back the modifier byte they started from; a turn that takes the
    release of 0x58 (0xF0 0x58) changes no modifier and sends nothing. *)
Theorem capslock_toggles table ks flags out :
  let f' := assign_bit m_fCapsLockOn (negb (Z.testbit flags m_fCapsLockOn)) flags in
  ConvertKeys_turn table false (mkWorld (0x58 :: ks) flags out)
    = Ret tt (mkWorld ks f' out) /\
  Z.testbit f' m_fCapsLockOn = negb (Z.testbit flags m_fCapsLockOn) /\
  (forall m, m <> m_fCapsLockOn -> Z.testbit f' m = Z.testbit flags m) /\
  (ConvertKeys_turn table false ;;; ConvertKeys_turn table false)
      (mkWorld (0x58 :: 0x58 :: ks) flags out)
    = Ret tt (mkWorld ks flags out) /\
  ConvertKeys_turn table false (mkWorld (0xF0 :: 0x58 :: ks) flags out)
    = Ret tt (mkWorld ks flags out).
Proof.
  intros f'.
  assert (forall l f,
            ConvertKeys_turn table false (mkWorld (0x58 :: l) f out)
            = Ret tt (mkWorld l
                        (assign_bit m_fCapsLockOn
                           (negb (Z.testbit f m_fCapsLockOn)) f) out))
    as Hpress by reflexivity.
  split_and!.
  - apply Hpress.
  - subst f'. rewrite testbit_assign_bit by (unfold m_fCapsLockOn; lia).
    now rewrite Z.eqb_refl.
  - intros m Hm. subst f'.
    rewrite testbit_assign_bit by (unfold m_fCapsLockOn; lia).
    destruct (Z.eqb_spec m_fCapsLockOn m); [congruence | reflexivity].
  - unfold bind. rewrite Hpress, Hpress.
    rewrite assign_bit_toggle_twice by (unfold m_fCapsLockOn; lia).
    reflexivity.
  - unfold ConvertKeys_turn, bind. rewrite WaitKey_cons.
    change (DoSpecial (LOBYTE 0xF0)) with false.
    change (LOBYTE 0xF0 =? 0xE0) with false.
    change (LOBYTE 0xF0 =? 0xE1) with false.
    change (LOBYTE 0xF0 =? 0xF0) with true. cbv iota beta.
    rewrite WaitKey_cons.
    change (LOBYTE 0x58) with 0x58.
    unfold DoASCII, bind, read_table, ret. cbn.
    destruct (LOBYTE (table 88 (shift_index flags)) =? 0); reflexivity.
Qed.

(** ** Right Control *)

(** C9 (the code departs from the claim).  The claim: the extended
    (right) Control code is rejected by the modifier dispatch as
    unhandled, changing no modifier state, and 0x14 updates ControlDown
    only in its non-extended form.  That is what the code does with the
    CapsLock/Control swap off.  With the swap on, the swap has already
    turned 0x14 into 0x58 when the [fExtended] guard of case 0x14 would
    be tested, so a press of right Control (0xE0 0x14) is handled and
    turns CapsLock on. *)
Theorem right_control_toggles_capslock_when_swapped :
  DoShift true 0x14 false true (mkWorld [] 0 [])
    = Ret true (mkWorld [] 8 []) /\
  (forall table,
     ConvertKeys_turn table true (mkWorld [0xE0; 0x14] 0 [])
     = Ret tt (mkWorld [] 8 [])) /\
  Z.testbit 8 m_fCapsLockOn = true /\
  (forall fRelease w, DoShift false 0x14 fRelease true w = Ret false w) /\
  (forall table (fRelease : bool) ks flags out,
     ConvertKeys_turn table false
       (mkWorld (0xE0 :: (if fRelease then [0xF0; 0x14] else [0x14]) ++ ks)
          flags out)
     = Ret tt (mkWorld ks flags out)) /\
  (forall fRelease ks flags out,
     DoShift false 0x14 fRelease false (mkWorld ks flags out)
     = Ret true
         (mkWorld ks (assign_bit m_fControlDown (negb fRelease) flags) out)).
Proof.
  split_and!; try reflexivity.
  intros table [] ks flags out; reflexivity.
Qed.

(** ** The table index *)

(** C10 (the code departs from the claim).  The claim: the row index of
    the lookup in [DoASCII] is always below 128.  The byte 0x84 is not
    consumed by any earlier step of the dispatch, whatever the table,
    the swap setting and the modifiers are, so [DoASCII] is called with
    it and indexes row 132 of a table declared with 128 rows.  The same
    happens for the byte that follows a release prefix. *)
Theorem unhandled_high_code_indexes_table table swap ks flags out :
  ConvertKeys_turn table swap (mkWorld (0x84 :: ks) flags out)
    = OutOfTable 0x84 (mkWorld ks flags out) /\
  ConvertKeys_turn table swap (mkWorld (0xF0 :: 0x84 :: ks) flags out)
    = OutOfTable 0x84 (mkWorld ks flags out) /\
  ConvertKeys table swap [0x84] = Some (BadRow 0x84 (mkWorld [] 0 [])) /\
  128 <= 0x84 < 256.
Proof.
  split_and!; try (destruct swap; reflexivity); lia.
Qed.

(** Every byte from 0x80 up that is not a status byte, a prefix or F7
    reaches the lookup. *)
Lemma high_codes_reach_lookup table swap ks flags out b :
  128 <= b < 256 ->
  ~ In b [0xAA; 0xE0; 0xE1; 0xEE; 0xF0; 0xFA; 0xFE; 0xFF; 0x83] ->
  ConvertKeys_turn table swap (mkWorld (b :: ks) flags out)
    = OutOfTable b (mkWorld ks flags out).
Proof.
  intros Hb Hn.
  assert (Forall (fun b =>
            In b [0xAA; 0xE0; 0xE1; 0xEE; 0xF0; 0xFA; 0xFE; 0xFF; 0x83] \/
            ConvertKeys_turn table swap (mkWorld (b :: ks) flags out)
              = OutOfTable b (mkWorld ks flags out))
            (map Z.of_nat (seq 128 128))) as H.
  { simpl map.
    repeat (constructor;
            [first [ right; destruct swap; reflexivity
                   | left; simpl; tauto ] | ]).
    constructor. }
  rewrite Forall_forall in H. destruct (H b) as [Hin|E].
  - apply list_elem_of_In.
    replace b with (Z.of_nat (Z.to_nat b)) by lia.
    apply in_map, in_seq. lia.
  - contradiction.
  - exact E.
Qed.

(** A fault can only be the lookup of a row from 128 up. *)
Lemma DoASCII_fault table bKey fRelease w r w' :
  DoASCII table bKey fRelease w = OutOfTable r w' -> r = bKey /\ 128 <= bKey.
Proof.
  unfold DoASCII, bind, read_table.
  destruct (Z.ltb_spec bKey 128) as [Hlt|Hge].
  - destruct (LOBYTE _ =? 0); [discriminate|].
    destruct fRelease; discriminate.
  - intros E. inversion E. subst. split; [reflexivity | exact Hge].
Qed.

(** ** The blocking consumer *)

Lemma WaitKey_pass_quiet st :
  m_bKeyGet st = m_bKeyPut st ->
  Z.land (g_bKeyFlags st) KEYBOARD_ERROR_BITS = 0 ->
  WaitKey_pass st = (None, st).
Proof.
  intros Hg Hf. unfold WaitKey_pass. rewrite GetKey_empty by exact Hg.
  simpl. now rewrite Hf.
Qed.

(** After the reinitialize the loop spins on an empty, error free
    receiver. *)
Lemma WaitKey_poll_quiet n : forall st,
  m_bKeyGet st = m_bKeyPut st ->
  Z.land (g_bKeyFlags st) KEYBOARD_ERROR_BITS = 0 ->
  WaitKey_poll n st = (None, st).
Proof.
  induction n as [|n IH]; intros st Hg Hf; [reflexivity|].
  simpl. rewrite WaitKey_pass_quiet by assumption. now apply IH.
Qed.

(** [WaitKey] leaves the flags byte alone unless the buffer is empty and
    an error bit is set. *)
Lemma WaitKey_pass_flags st :
  wf st ->
  g_bKeyFlags (snd (WaitKey_pass st)) = g_bKeyFlags st \/
  (m_bKeyGet st = m_bKeyPut st /\
   Z.land (g_bKeyFlags st) KEYBOARD_ERROR_BITS <> 0).
Proof.
  intros Hwf. unfold WaitKey_pass.
  destruct (Z.eq_dec (m_bKeyGet st) (m_bKeyPut st)) as [E|E].
  - rewrite GetKey_empty by exact E. simpl.
    destruct (Z.eqb_spec (Z.land (g_bKeyFlags st) KEYBOARD_ERROR_BITS) 0);
      simpl; [left; reflexivity | right; split; assumption].
  - left. destruct (GetKey_next st Hwf E) as (k & q & _ & Hk & HG & _).
    rewrite HG. destruct (Z.eqb_spec k (-1)) as [Ek|Ek]; [|reflexivity].
    destruct Hk. lia.
Qed.

(** C8.  When [WaitKey] finds the buffer empty ([GetKey] answers -1) and
    one of the bits of mask 0xF0 is set in the flags byte, that pass of
    its loop calls [InitializeKeyboard] -- both cursors, the receiver
    state and the whole flags byte become 0 -- and returns no key: the
    loop goes on polling, however many passes follow.  No other path
    clears a sticky error bit: not [GetKey], not [PutKey], not the timer
    handler, not the edge handler in any state, and not a pass of
    [WaitKey] that finds a byte or finds no error bit. *)
Theorem WaitKey_reinitializes_on_error st n sx d :
  wf sx ->
  m_bKeyGet st = m_bKeyPut st ->
  Z.land (g_bKeyFlags st) KEYBOARD_ERROR_BITS <> 0 ->
  (fst (GetKey st) = -1 /\
   WaitKey_pass st = (None, InitializeKeyboard st) /\
   m_bKeyGet (InitializeKeyboard st) = 0 /\
   m_bKeyPut (InitializeKeyboard st) = 0 /\
   m_bKeyState (InitializeKeyboard st) = 0 /\
   g_bKeyFlags (InitializeKeyboard st) = 0 /\
   WaitKey_poll (S n) st = (None, InitializeKeyboard st)) /\
  (keeps_errors sx (snd (GetKey sx)) /\
   keeps_errors sx (PutKey sx) /\
   keeps_errors sx (KEYBOARD_TIMEOUT sx) /\
   match KEYBOARD_BIT d sx with
   | Some sx' => keeps_errors sx sx'
   | None => True
   end /\
   (g_bKeyFlags (snd (WaitKey_pass sx)) = g_bKeyFlags sx \/
    (m_bKeyGet sx = m_bKeyPut sx /\
     Z.land (g_bKeyFlags sx) KEYBOARD_ERROR_BITS <> 0))).
Proof.
  intros Hwf Hg Hf.
  assert (WaitKey_pass st = (None, InitializeKeyboard st)) as Hpass.
  { unfold WaitKey_pass. rewrite GetKey_empty by exact Hg. simpl.
    apply Z.eqb_neq in Hf. now rewrite Hf. }
  split.
  - split_and!; try reflexivity.
    + now rewrite GetKey_empty.
    + exact Hpass.
    + simpl. rewrite Hpass. now apply WaitKey_poll_quiet.
  - split_and!.
    + apply GetKey_keeps_errors.
    + apply PutKey_keeps_errors.
    + apply KEYBOARD_TIMEOUT_keeps_errors.
    + destruct (KEYBOARD_BIT d sx) eqn:E; [|exact I].
      eapply KEYBOARD_BIT_keeps_errors. exact E.
    + now apply WaitKey_pass_flags.
Qed.

Lemma WaitKey_reinitializes_on_error_witness :
  WaitKey_pass (KEYBOARD_TIMEOUT power_on)
    = (None, InitializeKeyboard (KEYBOARD_TIMEOUT power_on)) /\
  g_bKeyFlags (KEYBOARD_TIMEOUT power_on) = 0x80 /\
  g_bKeyFlags (InitializeKeyboard (KEYBOARD_TIMEOUT power_on)) = 0.
Proof.
  destruct (WaitKey_reinitializes_on_error (KEYBOARD_TIMEOUT power_on) 0
              power_on true) as [(_ & H & _ & _ & _ & H0 & _) _].
  - exact wf_power_on.
  - reflexivity.
  - vm_compute. discriminate.
  - split; [exact H|]. split; [reflexivity | exact H0].
Defined.

(** ** The loop never runs out of turns *)

Lemma shrinks_ret {A} (a : A) : shrinks (ret a).
Proof. intros w a' w' E. inversion E. subst. lia. Qed.

Lemma shrinks_bind {A B} (m : M A) (k : A -> M B) :
  shrinks m -> (forall a, shrinks (k a)) -> shrinks (bind m k).
Proof.
  intros Hm Hk w b w' E. unfold bind in E.
  destruct (m w) as [a w1| |] eqn:Em; try discriminate.
  apply Hm in Em. apply Hk in E. lia.
Qed.

Lemma shrinks_WaitKey : shrinks WaitKey.
Proof.
  intros w a w' E. unfold WaitKey in E.
  destruct (keys w) as [|k ks]; inversion E; subst. simpl. lia.
Qed.

Lemma shrinks_SendHost ch : shrinks (SendHost ch).
Proof. intros w a w' E. inversion E. subst. simpl. lia. Qed.

Lemma shrinks_get_bit n : shrinks (get_bit n).
Proof. intros w a w' E. inversion E. subst. lia. Qed.

Lemma shrinks_put_bit n v : shrinks (put_bit n v).
Proof. intros w a w' E. inversion E. subst. simpl. lia. Qed.

Lemma shrinks_when c m : shrinks m -> shrinks (when c m).
Proof. intros H. destruct c; [exact H | apply shrinks_ret]. Qed.

Lemma shrinks_if {A} (c : bool) (m1 m2 : M A) :
  shrinks m1 -> shrinks m2 -> shrinks (if c then m1 else m2).
Proof. now destruct c. Qed.

Create HintDb shrink.

#[local] Hint Resolve shrinks_ret shrinks_WaitKey shrinks_SendHost
  shrinks_get_bit shrinks_put_bit shrinks_when : shrink.

Ltac shrink_step :=
  first [ solve [auto with shrink]
        | apply shrinks_if
        | apply shrinks_bind; [|intros ?] ].

Ltac shrink_match :=
  repeat match goal with
         | |- shrinks (match ?x with _ => _ end) => destruct x
         end.

Lemma shrinks_DoKeypad bKey fRelease : shrinks (DoKeypad bKey fRelease).
Proof. unfold DoKeypad. shrink_match; repeat shrink_step. Qed.

Lemma shrinks_DoFunction bKey fRelease : shrinks (DoFunction bKey fRelease).
Proof. unfold DoFunction. shrink_match; repeat shrink_step. Qed.

Lemma shrinks_DoShift swap bKey fRelease fExtended :
  shrinks (DoShift swap bKey fRelease fExtended).
Proof.
  unfold DoShift.
  generalize (if swap
              then if bKey =? 88 then 20 else if bKey =? 20 then 88 else bKey
              else bKey).
  intros b. shrink_match; repeat shrink_step.
Qed.

Lemma shrinks_DoASCII table bKey fRelease : shrinks (DoASCII table bKey fRelease).
Proof.
  intros w a w' E. unfold DoASCII, bind, read_table in E.
  destruct (bKey <? 128); [|discriminate].
  destruct (LOBYTE _ =? 0); [inversion E; subst; lia|].
  destruct fRelease; inversion E; subst; simpl; lia.
Qed.

#[local] Hint Resolve shrinks_DoKeypad shrinks_DoFunction shrinks_DoShift
  shrinks_DoASCII : shrink.

Lemma shrinks_DoExtended swap : shrinks (DoExtended swap).
Proof.
  unfold DoExtended. repeat shrink_step.
  destruct a0 as [fRelease bExtended]. cbn [fst snd].
  shrink_match; repeat shrink_step.
Qed.

Lemma shrinks_expect tail k : shrinks k -> shrinks (expect tail k).
Proof.
  intros Hk. induction tail as [|t tail IH]; [exact Hk|].
  simpl. repeat shrink_step.
Qed.

#[local] Hint Resolve shrinks_DoExtended shrinks_expect : shrink.

(** A turn that returns has taken at least one byte. *)
Lemma ConvertKeys_turn_consumes table swap w w' :
  ConvertKeys_turn table swap w = Ret tt w' ->
  (length (keys w') < length (keys w))%nat.
Proof.
  unfold ConvertKeys_turn. unfold bind at 1. unfold WaitKey at 1.
  destruct (keys w) as [|k ks] eqn:Ek; [discriminate|].
  intros E. simpl.
  assert (forall bKey, shrinks
    (if DoSpecial bKey then ret tt
     else if bKey =? 0xE0 then DoExtended swap
     else if bKey =? 0xE1 then expect pause_tail (SendHost KEY_BREAK)
     else
       p <- (if bKey =? 0xF0
             then (k <- WaitKey ;; ret (true, k))
             else ret (false, bKey)) ;;
       let fRelease := fst p in
       let bKey := snd p in
       if bKey =? 0x77 then when (negb fRelease) (SendHost KEY_NUMLOCK)
       else if bKey =? 0x7E then when (negb fRelease) (SendHost KEY_SCRLCK)
       else
         h <- DoShift swap bKey fRelease false ;;
         if h then ret tt else
         h <- DoFunction bKey fRelease ;;
         if h then ret tt else
         h <- DoKeypad bKey fRelease ;;
         if h then ret tt else
         DoASCII table bKey fRelease ;;; ret tt)) as H.
  { intros bKey. repeat shrink_step. }
  apply H in E. simpl in E. lia.
Qed.

(** With more turns than bytes the loop comes to rest: it starves in
    [WaitKey] or it has indexed outside the table. *)
Lemma ConvertKeys_loop_halts table swap n : forall w,
  (length (keys w) < n)%nat ->
  exists h, ConvertKeys_loop table swap n w = Some h.
Proof.
  induction n as [|n IH]; intros w Hn; [lia|].
  simpl. destruct (ConvertKeys_turn table swap w) as [[] w'| |] eqn:E; eauto.
  apply ConvertKeys_turn_consumes in E. apply IH. lia.
Qed.

Lemma ConvertKeys_halts table swap ks :
  exists h, ConvertKeys table swap ks = Some h.
Proof. apply ConvertKeys_loop_halts. simpl. lia. Qed.
(** ** The decoder's input is what the receiver queued *)

(** On a non-empty buffer a pass of [WaitKey] returns the oldest unread
    byte and touches nothing but the get cursor, so the values of
    successive calls are the queued bytes in order. *)
Lemma WaitKey_pass_next st :
  wf st -> m_bKeyGet st <> m_bKeyPut st ->
  exists k st',
    WaitKey_pass st = (Some k, st') /\
    contents st = k :: contents st' /\
    g_bKeyFlags st' = g_bKeyFlags st /\
    m_bKeyState st' = m_bKeyState st.
Proof.
  intros Hwf E. destruct (GetKey_next st Hwf E) as (k & q & Hc & Hk & HG & Hq & _).
  exists k, (set_get ((m_bKeyGet st + 1) mod 16) st).
  unfold WaitKey_pass. rewrite HG.
  destruct (Z.eqb_spec k (-1)) as [Ek|Ek]; [destruct Hk; lia|]. simpl.
  split_and!; try reflexivity.
  - f_equal. f_equal. unfold LOBYTE. change 0xFF with (Z.ones 8).
    rewrite Z.land_ones by lia. apply Z.mod_small. exact Hk.
  - now rewrite Hq.
Qed.

(** ** The examples of the design description *)

Example up_arrow table swap :
  ConvertKeys table swap [0xE0; 0x75]
    = Some (Starved (mkWorld [] 0 [KEY_UP])).
Proof. reflexivity. Qed.

Example up_arrow_release table swap :
  ConvertKeys table swap [0xE0; 0xF0; 0x75] = Some (Starved (mkWorld [] 0 [])).
Proof. reflexivity. Qed.

Example key_a_plain :
  ConvertKeys a_table false [0x1C] = Some (Starved (mkWorld [] 0 [0x61])).
Proof. reflexivity. Qed.

Example key_a_capslock :
  ConvertKeys a_table false [0x58; 0x1C]
    = Some (Starved (mkWorld [] 8 [0x41])).
Proof. reflexivity. Qed.

Example pause_break table swap :
  ConvertKeys table swap [0xE1; 0x14; 0x77; 0xE1; 0xF0; 0x14; 0xF0; 0x77]
    = Some (Starved (mkWorld [] 0 [KEY_BREAK])).
Proof. reflexivity. Qed.

(** A deviation in the Pause/Break tail ends the sub-decode without
    output, but the bytes after it are decoded on their own: here the
    0x77 that follows the wrong byte is taken as a Num Lock press. *)
Example pause_break_deviation table swap :
  ConvertKeys table swap [0xE1; 0x15; 0x77]
    = Some (Starved (mkWorld [] 0 [KEY_NUMLOCK])).
Proof. reflexivity. Qed.

End HostProofs.


(** * Further properties of keyboard.asm *)

Module KeyboardExtra.
Import I8051 Keyboard KeyboardProofs Host.

#[local] Arguments Z.testbit : simpl never.
#[local] Arguments RRC : simpl never.
#[local] Arguments odd_parity_bit : simpl never.

#[local] Hint Resolve wf_set_get wf_set_state wf_set_flags wf_set_TR0
  wf_set_data RRC_byte cursor_range wf_data is_byte_0 wf_KEYNXT wf_FRAERR
  wf_BADPAR wf_PutKey : kbd.

(** ** Trains of edges *)

Lemma run_edges_app l1 : forall st l2,
  run_edges st (l1 ++ l2) =
  match run_edges st l1 with
  | Some st' => run_edges st' l2
  | None => None
  end.
Proof.
  induction l1 as [|d l1 IH]; intros st l2; [reflexivity|].
  simpl. destruct (KEYBOARD_BIT d st); [apply IH | reflexivity].
Qed.

Lemma wf_run_edges es : forall st st',
  wf st -> run_edges st es = Some st' -> wf st'.
Proof.
  induction es as [|d es IH]; intros st st' Hwf E; simpl in E.
  - inversion E; subst; exact Hwf.
  - destruct (KEYBOARD_BIT d st) as [st1|] eqn:K; [|discriminate].
    eapply IH; [|exact E]. eapply wf_KEYBOARD_BIT; eassumption.
Qed.

Lemma run_edges_keeps_errors es : forall st st',
  run_edges st es = Some st' -> keeps_errors st st'.
Proof.
  induction es as [|d es IH]; intros st st' E; simpl in E.
  - inversion E. apply keeps_errors_refl.
  - destruct (KEYBOARD_BIT d st) as [st1|] eqn:K; [|discriminate].
    eapply keeps_errors_trans; [eapply KEYBOARD_BIT_keeps_errors; exact K|].
    now apply IH.
Qed.

(** The first [k] edges of a well-formed frame, taken by an idle
    receiver. *)
Lemma frame_prefix b st : forall k,
  wf st -> is_byte b -> m_bKeyState st = 0 -> (k <= 10)%nat ->
  exists st',
    run_edges st (firstn k (frame b)) = Some st' /\
    in_frame b k st' /\ same_ring st st' /\ wf st'.
Proof.
  induction k as [|k IH]; intros Hwf Hb Hs Hk.
  - exists st. split; [reflexivity|]. split; [split; [exact Hs | lia]|].
    split; [apply same_ring_refl | exact Hwf].
  - destruct (IH Hwf Hb Hs ltac:(lia)) as (st1 & HR & Hin & Hr & Hwf1).
    destruct (drop_frame_cons b k ltac:(lia)) as (d & rest & Hd).
    destruct (frame_step b k d rest st1 Hwf1 Hb Hin ltac:(lia) Hd)
      as (st2 & HK & Hin2 & _ & Hr2).
    exists st2.
    assert (firstn (S k) (frame b) = firstn k (frame b) ++ [d]) as ->.
    { apply take_S_r. rewrite <- (take_drop k (frame b)) at 1.
      rewrite Hd. rewrite lookup_app_r; rewrite length_take, frame_length;
        [|lia].
      replace (k - k `min` 11)%nat with 0%nat by lia. reflexivity. }
    rewrite run_edges_app, HR. simpl. rewrite HK.
    split; [reflexivity|]. split; [exact Hin2|].
    split; [eapply same_ring_trans; eassumption|].
    eapply wf_KEYBOARD_BIT; eassumption.
Qed.

(** X1.  An idle receiver that is given a start bit and then the eight
    data bits of a byte, least significant bit first, has that byte in
    its accumulator and waits for the parity bit; the timer runs, Busy is
    set and the key buffer is untouched. *)
Theorem data_bits_assembled st b :
  wf st -> m_bKeyState st = 0 -> is_byte b ->
  exists st',
    run_edges st (false :: data_bits b) = Some st' /\
    m_bKeyState st' = 9 /\ m_bKeyData st' = b /\
    armed st' /\ same_ring st st'.
Proof.
  intros Hwf Hs Hb.
  destruct (frame_prefix b st 9 Hwf Hb Hs ltac:(lia))
    as (st' & HR & [Hst Hd] & Hr & _).
  change (firstn 9 (frame b)) with (false :: data_bits b) in HR.
  exists st'. split; [exact HR|]. split; [exact Hst|].
  split; [rewrite Hd by lia; now apply acc_full|].
  split; [|exact Hr].
  destruct (START_arms st Hs) as (HK & Harm & Hs1 & _).
  destruct (frame_attempt (data_bits b) (START false st)) as (st1 & HR1 & _ & _ & Hk).
  { left. rewrite Hs1. simpl. lia. }
  assert (run_edges st (false :: data_bits b)
          = run_edges (START false st) (data_bits b)) as E1
    by (cbn [run_edges]; now rewrite HK).
  rewrite E1, HR1 in HR. inversion HR. subst st1.
  apply Hk; [lia | exact Harm].
Qed.

Lemma data_bits_assembled_witness :
  exists st',
    run_edges power_on (false :: data_bits 0x1C) = Some st' /\
    m_bKeyState st' = 9 /\ m_bKeyData st' = 0x1C /\
    armed st' /\ same_ring power_on st'.
Proof.
  apply (data_bits_assembled power_on 0x1C).
  - exact wf_power_on.
  - reflexivity.
  - unfold is_byte. lia.
Defined.

(** X2.  A frame that is well formed up to and including its parity bit
    but whose stop bit reads 0: the Framing flag is set, Busy is cleared,
    the timer is stopped, and the receiver is in state 11, where every
    later edge is ignored.  The byte is not stored: cursors and buffer
    are as before the frame. *)
Theorem stop_bit_low_is_framing_error st b :
  wf st -> m_bKeyState st = 0 -> is_byte b ->
  exists st',
    run_edges st (frame_with b (odd_parity_bit b) false) = Some st' /\
    m_bKeyState st' = 11 /\
    Z.testbit (g_bKeyFlags st') m_fKeyFraming = true /\
    Z.testbit (g_bKeyFlags st') m_fKeyBusy = false /\
    TR0 st' = false /\
    same_ring st st' /\
    forall es, run_edges st' es = Some st'.
Proof.
  intros Hwf Hs Hb.
  destruct (frame_prefix b st 10 Hwf Hb Hs ltac:(lia))
    as (st1 & HR & [Hst _] & Hr & _).
  change (frame_with b (odd_parity_bit b) false)
    with (firstn 10 (frame b) ++ [false]).
  rewrite run_edges_app, HR. simpl. unfold KEYBOARD_BIT. rewrite Hst. simpl.
  eexists. split; [reflexivity|]. unfold STOPB. simpl.
  split_and!; try reflexivity.
  - apply testbit_SETB_eq. unfold m_fKeyFraming. lia.
  - rewrite testbit_SETB_neq by (unfold m_fKeyFraming, m_fKeyBusy; lia).
    apply testbit_CLR_eq.
  - destruct Hr as (G & P & B). repeat split; assumption.
  - intros es. now apply error_state_absorbs.
Qed.

Lemma stop_bit_low_is_framing_error_witness :
  exists st',
    run_edges power_on (frame_with 0x1C false false) = Some st' /\
    m_bKeyState st' = 11 /\
    Z.testbit (g_bKeyFlags st') m_fKeyFraming = true /\
    Z.testbit (g_bKeyFlags st') m_fKeyBusy = false /\
    TR0 st' = false /\
    same_ring power_on st' /\
    forall es, run_edges st' es = Some st'.
Proof.
  apply (stop_bit_low_is_framing_error power_on 0x1C).
  - exact wf_power_on.
  - reflexivity.
  - unfold is_byte. lia.
Defined.

(** ** The ring as a queue *)

(** X3.  [GetKey] is the dequeue of a first-in first-out queue: on an
    empty buffer it answers -1 and changes nothing; otherwise it answers
    the oldest unread byte, which is a value 0..255 and so never the
    empty answer, leaves the other unread bytes in order, and changes
    nothing but the get cursor. *)
Theorem GetKey_is_fifo st :
  wf st ->
  match contents st with
  | [] => GetKey st = (-1, st)
  | k :: q =>
      exists st',
        GetKey st = (k, st') /\ contents st' = q /\ is_byte k /\ wf st' /\
        m_bKeyPut st' = m_bKeyPut st /\
        m_abKeyBuffer st' = m_abKeyBuffer st /\
        g_bKeyFlags st' = g_bKeyFlags st /\
        m_bKeyState st' = m_bKeyState st /\
        m_bKeyData st' = m_bKeyData st
  end.
Proof.
  intros Hwf. destruct (Z.eq_dec (m_bKeyGet st) (m_bKeyPut st)) as [E|E].
  - pose proof E as E0. apply (pending_0 st Hwf) in E0.
    unfold contents. rewrite E0. simpl. now apply GetKey_empty.
  - destruct (GetKey_next st Hwf E) as (k & q & Hc & Hk & HG & Hq & _).
    rewrite Hc. eexists. split; [exact HG|].
    split_and!; try reflexivity; try assumption.
    apply wf_set_get; [assumption|]. apply Z.mod_pos_bound. lia.
Qed.

Lemma GetKey_is_fifo_witness :
  contents full15 = 1 :: [2; 3; 4; 5; 6; 7; 8; 9; 10; 11; 12; 13; 14; 15] /\
  exists st',
    GetKey full15 = (1, st') /\
    contents st' = [2; 3; 4; 5; 6; 7; 8; 9; 10; 11; 12; 13; 14; 15].
Proof.
  split; [reflexivity|].
  assert (wf full15) as Hwf.
  { constructor; simpl; try lia; [|unfold is_byte; lia].
    repeat constructor; unfold is_byte; lia. }
  destruct (GetKey_is_fifo full15 Hwf) as (st' & HG & Hc & _).
  exists st'. split; [exact HG | exact Hc].
Defined.

(** X4.  With fewer than fifteen bytes unread, [PutKey] appends the
    assembled byte to the queue: draining the buffer afterwards gives
    the bytes that were unread before, in their order, followed by the
    new byte.  The get cursor and the flags are not touched. *)
Theorem PutKey_then_drain st :
  wf st -> (pending st < 15)%nat ->
  drain 16 (PutKey st) = drain 16 st ++ [m_bKeyData st] /\
  m_bKeyGet (PutKey st) = m_bKeyGet st /\
  g_bKeyFlags (PutKey st) = g_bKeyFlags st.
Proof.
  intros Hwf Hroom.
  destruct (PutKey_room st Hwf Hroom) as (Hc & Hp & Hg).
  rewrite !drain_contents by (auto using wf_PutKey, pending_lt).
  split; [exact Hc|]. split; [exact Hg|].
  rewrite PutKey_always_saves. reflexivity.
Qed.

Lemma PutKey_then_drain_witness :
  drain 16 (PutKey (set_data 0x5A power_on)) = [0x5A].
Proof.
  refine (proj1 (PutKey_then_drain (set_data 0x5A power_on) _ _)).
  - apply wf_set_data; [exact wf_power_on | unfold is_byte; lia].
  - vm_compute. lia.
Defined.

End KeyboardExtra.

(** * Properties of the receiver together with its consumer *)

Module SystemExtra.
Import I8051 Keyboard KeyboardProofs KeyboardExtra Host HostProofs.

#[local] Arguments Z.testbit : simpl never.
#[local] Arguments LOBYTE : simpl never.

Lemma wf_contents_nil st :
  wf st -> contents st = [] -> m_bKeyGet st = m_bKeyPut st.
Proof.
  intros Hwf Hc. apply (pending_0 st Hwf).
  unfold contents in Hc. apply (f_equal (@length Z)) in Hc.
  rewrite length_map, length_seq in Hc. exact Hc.
Qed.

(** A set error bit makes the test of [WaitKey] succeed. *)
Lemma error_bit_in_mask f bit :
  4 <= bit <= 7 -> Z.testbit f bit = true ->
  Z.land f KEYBOARD_ERROR_BITS <> 0.
Proof.
  intros Hb Ht E.
  assert (Z.testbit (Z.land f KEYBOARD_ERROR_BITS) bit = true) as H.
  { rewrite Z.land_spec, Ht.
    assert (bit = 4 \/ bit = 5 \/ bit = 6 \/ bit = 7) as [->|[->|[->| ->]]] by lia;
      reflexivity. }
  rewrite E in H. now rewrite Z.bits_0 in H.
Qed.

(** The two ways a pass of [WaitKey] can go. *)
Lemma WaitKey_pass_cases st :
  wf st ->
  (exists k st',
     WaitKey_pass st = (Some k, st') /\ is_byte k /\ wf st' /\
     contents st = k :: contents st' /\
     g_bKeyFlags st' = g_bKeyFlags st /\
     m_bKeyState st' = m_bKeyState st) \/
  (exists st',
     WaitKey_pass st = (None, st') /\ wf st' /\
     contents st = [] /\ contents st' = [] /\
     (st' = st \/ st' = InitializeKeyboard st)).
Proof.
  intros Hwf. destruct (Z.eq_dec (m_bKeyGet st) (m_bKeyPut st)) as [E|E].
  - right. unfold WaitKey_pass. rewrite GetKey_empty by exact E. simpl.
    assert (contents st = []) as Hc.
    { pose proof E as E0. apply (pending_0 st Hwf) in E0.
      unfold contents. now rewrite E0. }
    destruct (Z.land (g_bKeyFlags st) KEYBOARD_ERROR_BITS =? 0); simpl;
      eexists; (split; [reflexivity|]).
    + split_and!; auto.
    + split_and!; auto using wf_InitializeKeyboard.
  - left. destruct (GetKey_next st Hwf E) as (k & q & Hc & Hk & HG & Hq & _).
    exists k, (set_get ((m_bKeyGet st + 1) mod 16) st).
    unfold WaitKey_pass. rewrite HG.
    destruct (Z.eqb_spec k (-1)) as [Ek|Ek]; [destruct Hk; lia|]. simpl.
    split_and!; try reflexivity; try assumption.
    + f_equal. f_equal. unfold LOBYTE. change 0xFF with (Z.ones 8).
      rewrite Z.land_ones by lia. apply Z.mod_small. exact Hk.
    + apply wf_set_get; [assumption|]. apply Z.mod_pos_bound. lia.
    + now rewrite Hq.
Qed.

Lemma system_app hs1 : forall st hs2,
  system st (hs1 ++ hs2) =
  match system st hs1 with
  | Some (rs1, st') =>
      match system st' hs2 with
      | Some (rs2, st'') => Some (rs1 ++ rs2, st'')
      | None => None
      end
  | None => None
  end.
Proof.
  induction hs1 as [|[d| |] hs1 IH]; intros st hs2; simpl.
  - destruct (system st hs2) as [[rs2 st'']|]; reflexivity.
  - destruct (KEYBOARD_BIT d st); [apply IH | reflexivity].
  - apply IH.
  - destruct (WaitKey_pass st) as [r st1]. rewrite IH.
    destruct (system st1 hs1) as [[rs1 st']|]; [|reflexivity].
    destruct (system st' hs2) as [[rs2 st'']|]; reflexivity.
Qed.

Lemma system_edges es : forall st,
  system st (map Int0 es) =
  match run_edges st es with
  | Some st' => Some ([], st')
  | None => None
  end.
Proof.
  induction es as [|d es IH]; intros st; simpl; [reflexivity|].
  destruct (KEYBOARD_BIT d st); [apply IH | reflexivity].
Qed.

(** X5.  Whatever the order of clock edges, timer interrupts and passes
    of [WaitKey], and whatever levels the data line shows: the state
    byte stays inside the twelve entries of the jump table (so every
    edge is dispatched), both cursors stay inside the sixteen byte
    buffer, and every value [WaitKey] returns is a byte. *)
Theorem system_stays_in_bounds hs : forall st,
  wf st -> 0 <= m_bKeyState st <= 11 ->
  exists rs st',
    system st hs = Some (rs, st') /\
    wf st' /\ 0 <= m_bKeyState st' <= 11 /\
    Forall (fun r => forall k, r = Some k -> is_byte k) rs.
Proof.
  induction hs as [|[d| |] hs IH]; intros st Hwf Hs; simpl.
  - exists [], st. auto.
  - destruct (KEYBOARD_BIT_total d st Hs) as (st1 & HK & Hs1). rewrite HK.
    apply IH; [eapply wf_KEYBOARD_BIT; eassumption | exact Hs1].
  - apply IH; [now apply wf_KEYBOARD_TIMEOUT | simpl; lia].
  - destruct (WaitKey_pass_cases st Hwf)
      as [(k & st1 & HP & Hk & Hwf1 & _ & _ & Hst)
         |(st1 & HP & Hwf1 & _ & _ & [->| ->])];
      rewrite HP.
    + destruct (IH st1 Hwf1 ltac:(lia)) as (rs & st' & HS & Hw & Hr & Hb).
      rewrite HS. exists (Some k :: rs), st'.
      split; [reflexivity|]. split; [exact Hw|]. split; [exact Hr|].
      constructor; [|exact Hb]. intros k' E. inversion E; subst. exact Hk.
    + destruct (IH st Hwf Hs) as (rs & st' & HS & Hw & Hr & Hb).
      rewrite HS. exists (None :: rs), st'.
      split; [reflexivity|]. split; [exact Hw|]. split; [exact Hr|].
      constructor; [|exact Hb]. intros k' E. discriminate E.
    + destruct (IH (InitializeKeyboard st) Hwf1 ltac:(simpl; lia))
        as (rs & st' & HS & Hw & Hr & Hb).
      rewrite HS. exists (None :: rs), st'.
      split; [reflexivity|]. split; [exact Hw|]. split; [exact Hr|].
      constructor; [|exact Hb]. intros k' E. discriminate E.
Qed.

Lemma system_stays_in_bounds_witness :
  exists rs st',
    system power_on
      (map Int0 (frame 0x1C) ++ [Timer0; Int0 true; Pass; Pass; Int0 false])
      = Some (rs, st') /\
    wf st' /\ 0 <= m_bKeyState st' <= 11 /\
    Forall (fun r => forall k, r = Some k -> is_byte k) rs.
Proof.
  apply (system_stays_in_bounds _ power_on).
  - exact wf_power_on.
  - simpl. lia.
Defined.

(** X6.  The error bits are sticky across any stretch of clock edges,
    timer interrupts and passes of [WaitKey] in which every pass
    returned a key: each of the bits Overflow, Parity, Framing, Timeout
    that was set at the start is still set at the end. *)
Theorem errors_stick_while_keys_flow hs : forall st rs st',
  wf st -> system st hs = Some (rs, st') ->
  Forall (fun r => r <> None) rs ->
  keeps_errors st st'.
Proof.
  induction hs as [|[d| |] hs IH]; intros st rs st' Hwf HS Hrs; simpl in HS.
  - inversion HS. apply keeps_errors_refl.
  - destruct (KEYBOARD_BIT d st) as [st1|] eqn:HK; [|discriminate].
    eapply keeps_errors_trans; [eapply KEYBOARD_BIT_keeps_errors; exact HK|].
    eapply IH; [eapply wf_KEYBOARD_BIT; eassumption | exact HS | exact Hrs].
  - eapply keeps_errors_trans; [apply KEYBOARD_TIMEOUT_keeps_errors|].
    eapply IH; [now apply wf_KEYBOARD_TIMEOUT | exact HS | exact Hrs].
  - destruct (WaitKey_pass_cases st Hwf)
      as [(k & st1 & HP & _ & Hwf1 & _ & Hf & _)
         |(st1 & HP & _)];
      rewrite HP in HS;
      destruct (system st1 hs) as [[rs1 st'']|] eqn:HS1; try discriminate;
      inversion HS; subst.
    + apply Forall_cons in Hrs. destruct Hrs as [_ Hrs].
      eapply keeps_errors_trans; [apply keeps_errors_flags; exact Hf|].
      eapply IH; eassumption.
    + apply Forall_cons in Hrs. destruct Hrs as [Hn _]. now contradiction Hn.
Qed.

Lemma errors_stick_while_keys_flow_witness :
  exists rs st',
    system (KEYBOARD_TIMEOUT power_on) (map Int0 (frame 0x1C) ++ [Pass])
      = Some (rs, st') /\
    keeps_errors (KEYBOARD_TIMEOUT power_on) st'.
Proof.
  eexists. eexists. split; [vm_compute; reflexivity|].
  eapply (errors_stick_while_keys_flow
            (map Int0 (frame 0x1C) ++ [Pass]) (KEYBOARD_TIMEOUT power_on)).
  - apply wf_KEYBOARD_TIMEOUT. exact wf_power_on.
  - vm_compute. reflexivity.
  - repeat constructor. discriminate.
Defined.



(** Past the start bit, the edges of a well-formed frame leave the flags
    byte and the timer alone until the stop bit. *)
Lemma frame_step_flags b k d rest st st' :
  is_byte b -> in_frame b k st -> (1 <= k < 10)%nat ->
  drop k (frame b) = d :: rest ->
  KEYBOARD_BIT d st = Some st' ->
  g_bKeyFlags st' = g_bKeyFlags st /\ TR0 st' = TR0 st.
Proof.
  intros Hb [Hs Hd] Hk Hdrop. unfold KEYBOARD_BIT. rewrite Hs.
  destruct k as [|k]; [lia|].
  nat_cases k 9%nat; try lia; clear Hk;
    simpl in Hdrop; injection Hdrop as <- <-; simpl Z.of_nat; cbv iota beta;
    intros E; inversion E; subst st'; clear E.
  9: { unfold SPARITY.
       rewrite PSW_P_odd_parity, Hd, acc_full by (lia || assumption).
       destruct (odd_parity_bit b); simpl; split; reflexivity. }
  all: split; reflexivity.
Qed.

Lemma frame_prefix_flags b st : forall k st',
  wf st -> is_byte b -> m_bKeyState st = 0 -> (1 <= k <= 10)%nat ->
  run_edges st (firstn k (frame b)) = Some st' ->
  g_bKeyFlags st' = SETB m_fKeyBusy (g_bKeyFlags st) /\ TR0 st' = true.
Proof.
  induction k as [|k IH]; intros st' Hwf Hb Hs Hk HR; [lia|].
  destruct (Nat.eq_dec k 0%nat) as [->|Hk0].
  - change (firstn 1 (frame b)) with [false] in HR. simpl in HR.
    unfold KEYBOARD_BIT in HR. rewrite Hs in HR. inversion HR. subst st'.
    split; reflexivity.
  - destruct (frame_prefix b st k Hwf Hb Hs ltac:(lia))
      as (st1 & HR1 & Hin & _ & _).
    destruct (IH st1 Hwf Hb Hs ltac:(lia) HR1) as [Hf Ht].
    destruct (drop_frame_cons b k ltac:(lia)) as (d & rest & Hd).
    assert (firstn (S k) (frame b) = firstn k (frame b) ++ [d]) as E.
    { apply take_S_r. rewrite <- (take_drop k (frame b)) at 1.
      rewrite Hd. rewrite lookup_app_r; rewrite length_take, frame_length;
        [|lia].
      replace (k - k `min` 11)%nat with 0%nat by lia. reflexivity. }
    rewrite E, run_edges_app, HR1 in HR. simpl in HR.
    destruct (KEYBOARD_BIT d st1) as [st2|] eqn:HK; [|discriminate].
    inversion HR. subst st2.
    destruct (frame_step_flags b k d rest st1 st' Hb Hin ltac:(lia) Hd HK)
      as [Hf2 Ht2].
    split; congruence.
Qed.

(** A whole well-formed frame, taken by an idle receiver with room. *)
Lemma frame_delivered st b :
  wf st -> m_bKeyState st = 0 -> is_byte b -> (pending st < 15)%nat ->
  exists st',
    run_edges st (frame b) = Some st' /\ wf st' /\ m_bKeyState st' = 0 /\
    contents st' = contents st ++ [b] /\ keeps_errors st st' /\
    g_bKeyFlags st' = CLR m_fKeyBusy (SETB m_fKeyBusy (g_bKeyFlags st)).
Proof.
  intros Hwf Hs Hb Hroom.
  destruct (frame_prefix b st 10 Hwf Hb Hs ltac:(lia))
    as (st1 & HR & Hin & Hr & Hwf1).
  destruct (same_ring_contents _ _ Hr) as [Hc Hp].
  destruct (frame_stop b true [] st1 Hwf1 Hb Hin ltac:(lia) eq_refl)
    as (st2 & HK & Hs2 & _ & Hwf2 & Hc2 & _).
  assert (run_edges st (frame b) = Some st2) as HR2.
  { change (frame b) with (firstn 10 (frame b) ++ [true]).
    rewrite run_edges_app, HR. simpl. now rewrite HK. }
  exists st2. split; [exact HR2|]. split; [exact Hwf2|]. split; [exact Hs2|].
  split; [now rewrite Hc2, Hc|].
  split; [eapply run_edges_keeps_errors; exact HR2|].
  destruct (frame_prefix_flags b st 10 st1 Hwf Hb Hs ltac:(lia) HR) as [Hf _].
  destruct Hin as [Hs1 _]. unfold KEYBOARD_BIT in HK. rewrite Hs1 in HK.
  simpl in HK. inversion HK. subst st2. unfold STOPB. simpl.
  rewrite PutKey_always_saves. simpl. now rewrite Hf.
Qed.

Lemma system_timer st hs :
  system st (Timer0 :: hs) = system (KEYBOARD_TIMEOUT st) hs.
Proof. reflexivity. Qed.

Lemma system_pass st hs r st' :
  WaitKey_pass st = (r, st') ->
  system st (Pass :: hs) =
  match system st' hs with
  | Some (rs, st'') => Some (r :: rs, st'')
  | None => None
  end.
Proof. intros E. cbn [system]. now rewrite E. Qed.

Lemma system_nil st : system st [] = Some ([], st).
Proof. reflexivity. Qed.

Lemma run_edges_cons d es st st1 :
  KEYBOARD_BIT d st = Some st1 ->
  run_edges st (d :: es) = run_edges st1 es.
Proof. intros E. cbn [run_edges]. now rewrite E. Qed.

Lemma WaitKey_pass_reinit st bit :
  m_bKeyGet st = m_bKeyPut st -> 4 <= bit <= 7 ->
  Z.testbit (g_bKeyFlags st) bit = true ->
  WaitKey_pass st = (None, InitializeKeyboard st).
Proof.
  intros Hg Hb Ht. unfold WaitKey_pass. rewrite GetKey_empty by exact Hg.
  pose proof (error_bit_in_mask _ bit Hb Ht) as Hne.
  apply Z.eqb_neq in Hne. cbv beta iota zeta.
  change (negb (-1 =? -1)) with false. cbv iota. now rewrite Hne.
Qed.

(** X8.  The timeout brings the receiver back into step.  Take an idle
    receiver with an empty buffer; let a start bit and at most nine
    further edges of any levels arrive (a frame cut short, or one with a
    wrong parity bit), then the timer interrupt, then a well-formed
    frame for [b].  The next pass of [WaitKey] returns [b] -- nothing of
    the broken frame was queued -- and the pass after that, finding the
    buffer empty and the Timeout flag set, reinitialises: the receiver
    is idle, the buffer empty and the flags byte 0. *)
Theorem timeout_resynchronises st es b :
  wf st -> m_bKeyState st = 0 -> m_bKeyGet st = m_bKeyPut st ->
  (length es <= 9)%nat -> is_byte b ->
  exists st',
    system st (map Int0 (false :: es) ++ Timer0 :: map Int0 (frame b)
               ++ [Pass; Pass])
      = Some ([Some b; None], st') /\
    m_bKeyState st' = 0 /\ g_bKeyFlags st' = 0 /\
    m_bKeyGet st' = m_bKeyPut st'.
Proof.
  intros Hwf Hs Hg Hlen Hb.
  destruct (START_arms st Hs) as (HK & _ & Hs1 & Hr0).
  destruct (frame_attempt es (START false st) ltac:(lia))
    as (st1 & HR & Hr1 & _ & _).
  assert (run_edges st (false :: es) = Some st1) as HR1
    by (rewrite (run_edges_cons _ _ _ _ HK); exact HR).
  pose proof (wf_run_edges _ _ _ Hwf HR1) as Hwf1.
  destruct (KEYBOARD_TIMEOUT_effect st1) as (Ht & _ & Hz & Hr2).
  pose proof (wf_KEYBOARD_TIMEOUT _ Hwf1) as Hwf2.
  assert (same_ring st (KEYBOARD_TIMEOUT st1)) as Hr
    by (eapply same_ring_trans; [exact Hr0|];
        eapply same_ring_trans; eassumption).
  destruct (same_ring_contents _ _ Hr) as [Hc Hp].
  assert (pending st = 0%nat) as Hp0 by now apply pending_0.
  assert (contents st = []) as Hc0 by (unfold contents; now rewrite Hp0).
  destruct (frame_delivered (KEYBOARD_TIMEOUT st1) b Hwf2 Hz Hb ltac:(lia))
    as (st3 & HR3 & Hwf3 & Hs3 & Hc3 & Hk3 & _).
  rewrite Hc, Hc0, app_nil_l in Hc3.
  assert (Z.testbit (g_bKeyFlags st3) m_fKeyTimeout = true) as Ht3
    by (apply Hk3; [unfold m_fKeyTimeout; lia | exact Ht]).
  destruct (WaitKey_pass_cases st3 Hwf3)
    as [(k & st4 & HP & _ & Hwf4 & Hc4 & Hf4 & Hs4)
       |(st4 & _ & _ & Hc4 & _)]; [|rewrite Hc3 in Hc4; discriminate].
  rewrite Hc3 in Hc4. injection Hc4 as <- Hc4. symmetry in Hc4.
  pose proof (wf_contents_nil st4 Hwf4 Hc4) as Hg4.
  assert (WaitKey_pass st4 = (None, InitializeKeyboard st4)) as HP4.
  { apply (WaitKey_pass_reinit st4 m_fKeyTimeout Hg4);
      [unfold m_fKeyTimeout; lia | now rewrite Hf4]. }
  exists (InitializeKeyboard st4).
  split; [|split; [reflexivity | split; reflexivity]].
  rewrite system_app, system_edges, HR1, system_timer.
  rewrite system_app, system_edges, HR3.
  rewrite (system_pass _ _ _ _ HP), (system_pass _ _ _ _ HP4), system_nil.
  reflexivity.
Qed.

Lemma timeout_resynchronises_witness :
  exists st',
    system power_on
      (map Int0 [false; true; true; false] ++ Timer0 :: map Int0 (frame 0x1C)
       ++ [Pass; Pass])
      = Some ([Some 0x1C; None], st') /\
    m_bKeyState st' = 0 /\ g_bKeyFlags st' = 0 /\
    m_bKeyGet st' = m_bKeyPut st'.
Proof.
  apply (timeout_resynchronises power_on [true; true; false] 0x1C).
  - exact wf_power_on.
  - reflexivity.
  - reflexivity.
  - simpl. lia.
  - unfold is_byte. lia.
Defined.


End SystemExtra.

(** * Further properties of host.c, ps2apu.h and ps2apu.c *)

Module HostExtra.
Import I8051 Keyboard KeyboardProofs Host HostProofs Main.

#[local] Arguments LOBYTE : simpl never.
#[local] Arguments Z.testbit : simpl never.

(** ** What one call sends *)

Lemma emits_weaken {A} (P Q : Z -> Prop) (m : M A) :
  (forall c, P c -> Q c) -> emits P m -> emits Q m.
Proof.
  intros HPQ Hm w. destruct (Hm w) as [E|(c & Hc & E)]; [now left|].
  right. exists c. auto.
Qed.

Lemma emits_nothing {A} (m : M A) :
  emits nothing m <-> forall w, sent (world_of (m w)) = sent w.
Proof.
  split; intros H w.
  - destruct (H w) as [E|(c & [] & _)]. exact E.
  - left. apply H.
Qed.

Lemma emits_ret {A} P (a : A) : emits P (ret a).
Proof. intros w. now left. Qed.

Lemma emits_WaitKey P : emits P WaitKey.
Proof. intros w. left. unfold WaitKey. now destruct (keys w). Qed.

Lemma emits_get_bit P n : emits P (get_bit n).
Proof. intros w. now left. Qed.

Lemma emits_put_bit P n v : emits P (put_bit n v).
Proof. intros w. now left. Qed.

Lemma emits_SendHost (P : Z -> Prop) c : P c -> emits P (SendHost c).
Proof. intros Hc w. right. exists c. split; [exact Hc | reflexivity]. Qed.

Lemma emits_when P c m : emits P m -> emits P (when c m).
Proof. intros H. destruct c; [exact H | apply emits_ret]. Qed.

Lemma emits_if {A} P (c : bool) (m1 m2 : M A) :
  emits P m1 -> emits P m2 -> emits P (if c then m1 else m2).
Proof. now destruct c. Qed.

(** A silent call followed by one that sends at most one byte. *)
Lemma emits_bind_l {A B} P (m : M A) (k : A -> M B) :
  emits nothing m -> (forall a, emits P (k a)) -> emits P (bind m k).
Proof.
  intros Hm Hk w. rewrite emits_nothing in Hm. specialize (Hm w).
  unfold bind. destruct (m w) as [a w'| w'| r w']; simpl in Hm.
  - rewrite <- Hm. apply Hk.
  - now left.
  - now left.
Qed.

(** A call that sends at most one byte followed by a silent one. *)
Lemma emits_bind_r {A B} P (m : M A) (k : A -> M B) :
  emits P m -> (forall a, emits nothing (k a)) -> emits P (bind m k).
Proof.
  intros Hm Hk w. specialize (Hm w).
  unfold bind. destruct (m w) as [a w'| w'| r w']; simpl in Hm; try exact Hm.
  specialize (Hk a). rewrite emits_nothing in Hk. now rewrite Hk.
Qed.

(** The pattern [if (Do...(bKey)) continue;] of the dispatch. *)
Lemma emits_chain P (m : M bool) (k : M unit) :
  emits_if_handled P m -> emits P k ->
  emits P (h <- m ;; if h then ret tt else k).
Proof.
  intros [Hm Hf] Hk w. pose proof (Hm w) as Hw.
  unfold bind. destruct (m w) as [[|] w'| w'| r w'] eqn:E; simpl in Hw;
    try exact Hw.
  rewrite <- (Hf w w' E). apply Hk.
Qed.

Create HintDb emit.

#[local] Hint Resolve emits_ret emits_WaitKey emits_get_bit emits_put_bit
  emits_when emits_if emits_bind_l : emit.

Ltac emit_match :=
  repeat match goal with
         | |- emits _ (match ?x with _ => _ end) => destruct x
         end.

Ltac emit_step :=
  first [ solve [auto with emit]
        | apply emits_SendHost; solve [vm_compute; intuition discriminate]
        | apply emits_if
        | apply emits_bind_l; [solve [auto with emit] | intros ?]
        | apply emits_bind_r; [ | intros ?; solve [auto with emit]] ].

Lemma emits_DoShift P swap bKey fRelease fExtended :
  emits P (DoShift swap bKey fRelease fExtended).
Proof.
  apply (emits_weaken nothing); [intros c []|].
  unfold DoShift.
  generalize (if swap
              then if bKey =? 88 then 20 else if bKey =? 20 then 88 else bKey
              else bKey).
  intros b. emit_match; repeat emit_step.
Qed.

#[local] Hint Resolve emits_DoShift : emit.

Lemma handled_DoFunction bKey fRelease :
  emits_if_handled (special 0x81 0x8C) (DoFunction bKey fRelease).
Proof.
  split.
  - unfold DoFunction. emit_match; repeat emit_step.
  - intros w w'. unfold DoFunction.
    repeat match goal with
           | |- context [match ?x with _ => _ end] => destruct x
           end;
      destruct fRelease; intros E; inversion E; reflexivity.
Qed.

Lemma handled_DoKeypad bKey fRelease :
  emits_if_handled (special 0xA0 0xAE) (DoKeypad bKey fRelease).
Proof.
  split.
  - unfold DoKeypad. emit_match; repeat emit_step.
  - intros w w'. unfold DoKeypad.
    repeat match goal with
           | |- context [match ?x with _ => _ end] => destruct x
           end;
      destruct fRelease; intros E; inversion E; reflexivity.
Qed.

Lemma handled_DoShift P swap bKey fRelease :
  emits_if_handled P (DoShift swap bKey fRelease false).
Proof.
  split; [apply emits_DoShift|].
  intros w w' E.
  pose proof (emits_DoShift nothing swap bKey fRelease false) as H.
  rewrite emits_nothing in H. specialize (H w). now rewrite E in H.
Qed.

(** A seven bit character stays one when it is forced to upper case. *)
Lemma ascii_char caps e :
  0 <= (if caps && islower (Z.land e 0x7F)
        then toupper (Z.land e 0x7F) else Z.land e 0x7F) < 128.
Proof.
  assert (0 <= Z.land e 0x7F < 128) as H.
  { change 0x7F with (Z.ones 7). rewrite Z.land_ones by lia.
    apply Z.mod_pos_bound. lia. }
  destruct (caps && islower (Z.land e 0x7F)); [|exact H].
  unfold toupper. rewrite <- Z.land_assoc.
  change (Z.land 0x7F 0xDF) with (Z.land 0xDF (Z.ones 7)).
  rewrite Z.land_assoc, Z.land_ones by lia. apply Z.mod_pos_bound. lia.
Qed.

Lemma emits_DoASCII table bKey fRelease :
  emits (special 0 0x7F) (DoASCII table bKey fRelease).
Proof.
  intros w. unfold DoASCII, bind, read_table.
  destruct (bKey <? 128); [|now left].
  destruct (LOBYTE _ =? 0); [now left|].
  destruct fRelease; [now left|].
  right. eexists. split; [|reflexivity].
  pose proof (ascii_char (Z.testbit (m_bShiftFlags w) m_fCapsLockOn)
                (LOBYTE (table bKey (shift_index (m_bShiftFlags w))))) as H.
  unfold special. lia.
Qed.

Lemma emits_DoExtended swap :
  emits (special 0x90 0xAF) (DoExtended swap).
Proof.
  unfold DoExtended. emit_step. emit_step.
  destruct a0 as [fRelease bExtended]. cbn [fst snd].
  emit_match; repeat emit_step.
Qed.

Lemma emits_expect P tail k : emits P k -> emits P (expect tail k).
Proof.
  intros Hk. induction tail as [|t tail IH]; [exact Hk|].
  simpl. repeat emit_step.
Qed.

Lemma handled_weaken (P Q : Z -> Prop) (m : M bool) :
  (forall c, P c -> Q c) -> emits_if_handled P m -> emits_if_handled Q m.
Proof.
  intros HPQ [Hm Hf]. split; [|exact Hf]. eapply emits_weaken; eassumption.
Qed.

Lemma handled_of_nothing (m : M bool) :
  emits nothing m -> emits_if_handled nothing m.
Proof.
  intros H. split; [exact H|]. intros w w' E.
  rewrite emits_nothing in H. specialize (H w). now rewrite E in H.
Qed.

(** The monad laws used to open up a turn. *)
Lemma bind_assoc {A B C} (m : M A) (f : A -> M B) (g : B -> M C) w :
  bind (bind m f) g w = bind m (fun a => bind (f a) g) w.
Proof. unfold bind. destruct (m w); [destruct (f a w0)|..]; reflexivity. Qed.

Lemma bind_ret {A B} (a : A) (g : A -> M B) w : bind (ret a) g w = g a w.
Proof. reflexivity. Qed.

(** The part of a turn that follows the release prefix test, for a key
    code [bKey] with release flag [fRelease]. *)
Lemma turn_key table swap k ks flags out :
  DoSpecial (LOBYTE k) = false ->
  LOBYTE k <> 0xE0 -> LOBYTE k <> 0xE1 -> LOBYTE k <> 0xF0 ->
  ConvertKeys_turn table swap (mkWorld (k :: ks) flags out) =
  (let fRelease := false in
   let bKey := LOBYTE k in
   if bKey =? 0x77 then when (negb fRelease) (SendHost KEY_NUMLOCK)
   else if bKey =? 0x7E then when (negb fRelease) (SendHost KEY_SCRLCK)
   else
     h <- DoShift swap bKey fRelease false ;;
     if h then ret tt else
     h <- DoFunction bKey fRelease ;;
     if h then ret tt else
     h <- DoKeypad bKey fRelease ;;
     if h then ret tt else
     DoASCII table bKey fRelease ;;; ret tt) (mkWorld ks flags out).
Proof.
  intros Hs H0 H1 HF. unfold ConvertKeys_turn. unfold bind at 1.
  rewrite WaitKey_cons, Hs.
  apply Z.eqb_neq in H0, H1, HF. rewrite H0, H1, HF. reflexivity.
Qed.

Lemma turn_release table swap k ks flags out :
  ConvertKeys_turn table swap (mkWorld (0xF0 :: k :: ks) flags out) =
  (let fRelease := true in
   let bKey := LOBYTE k in
   if bKey =? 0x77 then when (negb fRelease) (SendHost KEY_NUMLOCK)
   else if bKey =? 0x7E then when (negb fRelease) (SendHost KEY_SCRLCK)
   else
     h <- DoShift swap bKey fRelease false ;;
     if h then ret tt else
     h <- DoFunction bKey fRelease ;;
     if h then ret tt else
     h <- DoKeypad bKey fRelease ;;
     if h then ret tt else
     DoASCII table bKey fRelease ;;; ret tt) (mkWorld ks flags out).
Proof.
  unfold ConvertKeys_turn. unfold bind at 1. rewrite WaitKey_cons.
  change (DoSpecial (LOBYTE 0xF0)) with false.
  change (LOBYTE 0xF0 =? 0xE0) with false.
  change (LOBYTE 0xF0 =? 0xE1) with false.
  change (LOBYTE 0xF0 =? 0xF0) with true. cbv iota.
  rewrite bind_assoc. unfold bind at 1. rewrite WaitKey_cons. reflexivity.
Qed.

Lemma emits_turn table swap :
  emits (special 0 0xAF) (ConvertKeys_turn table swap).
Proof.
  unfold ConvertKeys_turn.
  apply emits_bind_l; [auto with emit | intros bKey].
  apply emits_if; [auto with emit|].
  apply emits_if.
  { eapply emits_weaken; [|apply emits_DoExtended]. unfold special. lia. }
  apply emits_if.
  { apply emits_expect. apply emits_SendHost. vm_compute. intuition discriminate. }
  apply emits_bind_l; [auto with emit | intros [fRelease k]]. cbn [fst snd].
  apply emits_if.
  { apply emits_when, emits_SendHost. vm_compute. intuition discriminate. }
  apply emits_if.
  { apply emits_when, emits_SendHost. vm_compute. intuition discriminate. }
  apply emits_chain; [apply handled_DoShift|].
  apply emits_chain.
  { eapply handled_weaken; [|apply handled_DoFunction]. unfold special. lia. }
  apply emits_chain.
  { eapply handled_weaken; [|apply handled_DoKeypad]. unfold special. lia. }
  apply emits_bind_r; [|intros ?; auto with emit].
  eapply emits_weaken; [|apply emits_DoASCII]. unfold special. lia.
Qed.

(** ** Releases *)

Lemma emits_when_release P m : emits P (when (negb true) m).
Proof. apply emits_ret. Qed.

#[local] Hint Resolve emits_when_release : emit.

Lemma release_DoFunction bKey : emits nothing (DoFunction bKey true).
Proof. unfold DoFunction. emit_match; repeat emit_step. Qed.

Lemma release_DoKeypad bKey : emits nothing (DoKeypad bKey true).
Proof. unfold DoKeypad. emit_match; repeat emit_step. Qed.

Lemma release_DoASCII table bKey : emits nothing (DoASCII table bKey true).
Proof.
  intros w. left. unfold DoASCII, bind, read_table.
  destruct (bKey <? 128); [|reflexivity].
  destruct (LOBYTE _ =? 0); reflexivity.
Qed.

Lemma release_key table swap bKey :
  emits nothing
    (let fRelease := true in
     if bKey =? 0x77 then when (negb fRelease) (SendHost KEY_NUMLOCK)
     else if bKey =? 0x7E then when (negb fRelease) (SendHost KEY_SCRLCK)
     else
       h <- DoShift swap bKey fRelease false ;;
       if h then ret tt else
       h <- DoFunction bKey fRelease ;;
       if h then ret tt else
       h <- DoKeypad bKey fRelease ;;
       if h then ret tt else
       DoASCII table bKey fRelease ;;; ret tt).
Proof.
  cbv zeta.
  apply emits_if; [auto with emit|].
  apply emits_if; [auto with emit|].
  apply emits_chain; [apply handled_DoShift|].
  apply emits_chain; [apply handled_of_nothing, release_DoFunction|].
  apply emits_chain; [apply handled_of_nothing, release_DoKeypad|].
  apply emits_bind_r; [apply release_DoASCII | intros ?; auto with emit].
Qed.

Lemma release_extended swap bExtended :
  emits nothing
    (match bExtended with
     | 0x75 => when (negb true) (SendHost KEY_UP)
     | 0x72 => when (negb true) (SendHost KEY_DOWN)
     | 0x74 => when (negb true) (SendHost KEY_RIGHT)
     | 0x6B => when (negb true) (SendHost KEY_LEFT)
     | 0x69 => when (negb true) (SendHost KEY_END)
     | 0x6C => when (negb true) (SendHost KEY_HOME)
     | 0x70 => when (negb true) (SendHost KEY_INSERT)
     | 0x71 => when (negb true) (SendHost KEY_DELETE)
     | 0x7A => when (negb true) (SendHost KEY_PGDN)
     | 0x7D => when (negb true) (SendHost KEY_PGUP)
     | 0x5A => when (negb true) (SendHost KEY_KPENTER)
     | 0x4A => when (negb true) (SendHost KEY_KPSLASH)
     | 0x11 | 0x14 => DoShift swap bExtended true true ;;; ret tt
     | 0x2F => when (negb true) (SendHost KEY_MENU)
     | 0x1F | 0x27 => DoShift swap bExtended true true ;;; ret tt
     | 0x12 | 0x7C => ret tt
     | _ => ret tt
     end).
Proof. emit_match; repeat emit_step. Qed.

(** X11.  A release never reaches the host.  A turn that starts with the
    release prefix 0xF0, or with the extended prefix followed by the
    release prefix (0xE0 0xF0), sends nothing, whatever byte follows,
    whatever the table holds and however the turn ends. *)
Theorem release_sends_nothing table swap ks flags out :
  sent (world_of (ConvertKeys_turn table swap
                    (mkWorld (0xF0 :: ks) flags out))) = out /\
  sent (world_of (ConvertKeys_turn table swap
                    (mkWorld (0xE0 :: 0xF0 :: ks) flags out))) = out.
Proof.
  split.
  - destruct ks as [|k ks]; [reflexivity|].
    rewrite turn_release.
    pose proof (release_key table swap (LOBYTE k)) as H.
    rewrite emits_nothing in H. apply (H (mkWorld ks flags out)).
  - change (ConvertKeys_turn table swap (mkWorld (0xE0 :: 0xF0 :: ks) flags out))
      with (DoExtended swap (mkWorld (0xF0 :: ks) flags out)).
    unfold DoExtended. unfold bind at 1. rewrite WaitKey_cons.
    change (LOBYTE 0xF0 =? 0xF0) with true. cbv iota.
    rewrite bind_assoc. unfold bind at 1.
    destruct ks as [|k ks]; [reflexivity|].
    rewrite WaitKey_cons, bind_ret. cbn [fst snd].
    pose proof (release_extended swap (LOBYTE k)) as H.
    rewrite emits_nothing in H. apply (H (mkWorld ks flags out)).
Qed.

(** ** Invariants of a call *)

Lemma preserves_ret {A} I (a : A) : preserves I (ret a).
Proof. intros w H. exact H. Qed.

Lemma preserves_bind {A B} I (m : M A) (k : A -> M B) :
  preserves I m -> (forall a, preserves I (k a)) -> preserves I (bind m k).
Proof.
  intros Hm Hk w H. specialize (Hm w H). unfold bind.
  destruct (m w) as [a w'| w'| r w']; simpl in Hm; try exact Hm.
  now apply Hk.
Qed.

Lemma preserves_when I c m : preserves I m -> preserves I (when c m).
Proof. intros H. destruct c; [exact H | apply preserves_ret]. Qed.

Lemma preserves_if {A} I (c : bool) (m1 m2 : M A) :
  preserves I m1 -> preserves I m2 -> preserves I (if c then m1 else m2).
Proof. now destruct c. Qed.

Lemma at_most_WaitKey n : preserves (at_most n) WaitKey.
Proof.
  intros w H. unfold at_most in *. unfold WaitKey.
  destruct (keys w) as [|k ks] eqn:E; simpl in *; [rewrite E; exact H | lia].
Qed.

Lemma at_most_SendHost n c : preserves (at_most n) (SendHost c).
Proof. intros w H. exact H. Qed.

Lemma at_most_get_bit n b : preserves (at_most n) (get_bit b).
Proof. intros w H. exact H. Qed.

Lemma at_most_put_bit n b v : preserves (at_most n) (put_bit b v).
Proof. intros w H. exact H. Qed.

Create HintDb keep.

#[local] Hint Resolve preserves_ret preserves_when preserves_if
  preserves_bind at_most_WaitKey at_most_SendHost at_most_get_bit
  at_most_put_bit : keep.

Ltac keep_match :=
  repeat match goal with
         | |- preserves _ (match ?x with _ => _ end) => destruct x
         end.

Lemma at_most_DoShift n swap bKey fRelease fExtended :
  preserves (at_most n) (DoShift swap bKey fRelease fExtended).
Proof.
  unfold DoShift.
  generalize (if swap
              then if bKey =? 88 then 20 else if bKey =? 20 then 88 else bKey
              else bKey).
  intros b. keep_match; auto 8 with keep.
Qed.

Lemma at_most_DoFunction n bKey fRelease :
  preserves (at_most n) (DoFunction bKey fRelease).
Proof. unfold DoFunction. keep_match; auto 8 with keep. Qed.

Lemma at_most_DoKeypad n bKey fRelease :
  preserves (at_most n) (DoKeypad bKey fRelease).
Proof. unfold DoKeypad. keep_match; auto 8 with keep. Qed.

Lemma at_most_DoASCII n table bKey fRelease :
  preserves (at_most n) (DoASCII table bKey fRelease).
Proof.
  intros w H. unfold DoASCII, bind, read_table.
  destruct (bKey <? 128); [|exact H].
  destruct (LOBYTE _ =? 0); [exact H|].
  destruct fRelease; exact H.
Qed.

#[local] Hint Resolve at_most_DoShift at_most_DoFunction at_most_DoKeypad
  at_most_DoASCII : keep.

Lemma at_most_DoExtended n swap : preserves (at_most n) (DoExtended swap).
Proof.
  unfold DoExtended.
  apply preserves_bind; [auto with keep | intros b].
  apply preserves_bind; [auto 8 with keep | intros [fRelease bExtended]].
  cbn [fst snd]. keep_match; auto 8 with keep.
Qed.

Lemma at_most_expect n tail k :
  preserves (at_most n) k -> preserves (at_most n) (expect tail k).
Proof.
  intros Hk. induction tail as [|t tail IH]; [exact Hk|].
  simpl. auto 8 with keep.
Qed.

#[local] Hint Resolve at_most_DoExtended at_most_expect : keep.

Lemma at_most_key n table swap bKey fRelease :
  preserves (at_most n)
    (if bKey =? 0x77 then when (negb fRelease) (SendHost KEY_NUMLOCK)
     else if bKey =? 0x7E then when (negb fRelease) (SendHost KEY_SCRLCK)
     else
       h <- DoShift swap bKey fRelease false ;;
       if h then ret tt else
       h <- DoFunction bKey fRelease ;;
       if h then ret tt else
       h <- DoKeypad bKey fRelease ;;
       if h then ret tt else
       DoASCII table bKey fRelease ;;; ret tt).
Proof.
  repeat first [ solve [auto with keep]
               | apply preserves_if
               | apply preserves_bind; [|intros ?] ].
Qed.

Lemma at_most_dispatch n table swap bKey :
  preserves (at_most n)
    (if DoSpecial bKey then ret tt
     else if bKey =? 0xE0 then DoExtended swap
     else if bKey =? 0xE1 then expect pause_tail (SendHost KEY_BREAK)
     else
       p <- (if bKey =? 0xF0
             then (k <- WaitKey ;; ret (true, k))
             else ret (false, bKey)) ;;
       let fRelease := fst p in
       let bKey := snd p in
       if bKey =? 0x77 then when (negb fRelease) (SendHost KEY_NUMLOCK)
       else if bKey =? 0x7E then when (negb fRelease) (SendHost KEY_SCRLCK)
       else
         h <- DoShift swap bKey fRelease false ;;
         if h then ret tt else
         h <- DoFunction bKey fRelease ;;
         if h then ret tt else
         h <- DoKeypad bKey fRelease ;;
         if h then ret tt else
         DoASCII table bKey fRelease ;;; ret tt).
Proof.
  apply preserves_if; [auto with keep|].
  apply preserves_if; [auto with keep|].
  apply preserves_if; [auto with keep|].
  apply preserves_bind; [auto 8 with keep | intros [fRelease b]].
  cbn [fst snd]. apply at_most_key.
Qed.

(** One turn: the bytes taken pay for the byte sent. *)
Lemma turn_balance table swap w :
  (length (sent (world_of (ConvertKeys_turn table swap w)))
   + length (keys (world_of (ConvertKeys_turn table swap w)))
   <= length (sent w) + length (keys w))%nat.
Proof.
  assert (length (sent (world_of (ConvertKeys_turn table swap w)))
          <= S (length (sent w)))%nat as Hs.
  { destruct (emits_turn table swap w) as [E|(c & _ & E)];
      rewrite E; [lia|]. rewrite length_app. simpl. lia. }
  destruct (keys w) as [|k ks] eqn:Ek.
  { unfold ConvertKeys_turn, bind, WaitKey. rewrite Ek. simpl.
    rewrite Ek. simpl. lia. }
  assert (at_most (length ks) (world_of (ConvertKeys_turn table swap w))) as Hk.
  { unfold ConvertKeys_turn. unfold bind at 1. unfold WaitKey at 1.
    rewrite Ek.
    apply (at_most_dispatch (length ks) table swap (LOBYTE k)).
    unfold at_most. simpl. lia. }
  unfold at_most in Hk. simpl. lia.
Qed.

(** X10.  One turn of the decoder loop, on any input and however it
    ends (returning, waiting for a byte or faulting on the table), hands
    at most one byte to the host; that byte is in the range 0x00..0xAF,
    and a turn that sends has taken at least one byte from the
    receiver. *)
Theorem turn_sends_at_most_one table swap w :
  let w' := world_of (ConvertKeys_turn table swap w) in
  sent w' = sent w \/
  exists c,
    0 <= c <= 0xAF /\ sent w' = sent w ++ [c] /\
    (length (keys w') < length (keys w))%nat.
Proof.
  cbv zeta.
  destruct (emits_turn table swap w) as [E|(c & Hc & E)]; [now left|].
  right. exists c. split; [exact Hc|]. split; [exact E|].
  pose proof (turn_balance table swap w) as Hb.
  rewrite E, length_app in Hb. simpl in Hb. lia.
Qed.

(** A turn appends what it sends, and pays for it with bytes taken. *)
Lemma turn_output table swap w :
  exists out,
    sent (world_of (ConvertKeys_turn table swap w)) = sent w ++ out /\
    Forall (special 0 0xAF) out /\
    (length out + length (keys (world_of (ConvertKeys_turn table swap w)))
     <= length (keys w))%nat.
Proof.
  pose proof (turn_balance table swap w) as Hb.
  destruct (emits_turn table swap w) as [E|(c & Hc & E)].
  - exists []. rewrite app_nil_r. split; [exact E|]. split; [constructor|].
    rewrite E in Hb. simpl. lia.
  - exists [c]. split; [exact E|]. split; [constructor; [exact Hc | constructor]|].
    rewrite E, length_app in Hb. simpl in *. lia.
Qed.

Lemma loop_output table swap n : forall w h,
  ConvertKeys_loop table swap n w = Some h ->
  exists out,
    sent (halt_world h) = sent w ++ out /\
    Forall (special 0 0xAF) out /\
    (length out + length (keys (halt_world h)) <= length (keys w))%nat.
Proof.
  induction n as [|n IH]; intros w h E; [discriminate|].
  simpl in E.
  destruct (turn_output table swap w) as (o1 & Hs & Hf & Hl).
  destruct (ConvertKeys_turn table swap w) as [[] w'| w'| r w'];
    simpl in Hs, Hl.
  - destruct (IH w' h E) as (o2 & Hs2 & Hf2 & Hl2).
    exists (o1 ++ o2). rewrite Hs2, Hs, app_assoc. split; [reflexivity|].
    split; [apply Forall_app; auto|]. rewrite length_app. lia.
  - inversion E; subst. exists o1. auto.
  - inversion E; subst. exists o1. auto.
Qed.

(** X12.  The decoder never sends more bytes than it has taken from the
    receiver.  On any input [ConvertKeys] comes to rest, having sent at
    most as many bytes as the keyboard delivered, every one of them in the
    range 0x00..0xAF. *)
Theorem ConvertKeys_output_bounded table swap ks :
  exists h,
    ConvertKeys table swap ks = Some h /\
    (length (sent (halt_world h)) <= length ks)%nat /\
    Forall (fun c => 0 <= c <= 0xAF) (sent (halt_world h)).
Proof.
  destruct (ConvertKeys_halts table swap ks) as [h E].
  exists h. split; [exact E|].
  destruct (loop_output _ _ _ _ _ E) as (out & Hs & Hf & Hl).
  simpl in Hs, Hl. rewrite Hs. split; [lia | exact Hf].
Qed.

(** ** Status bytes *)

(** X13.  Status bytes of the keyboard are dropped.  Wherever a turn
    starts, with any modifier state and any output so far, a run of the
    bytes [DoSpecial] recognises (acknowledge 0xFA, self test passed
    0xAA, echo 0xEE, resend 0xFE and the error codes 0x00 and 0xFF) takes
    one turn each and leaves no trace: the loop goes on as it does
    without them.  So [ConvertKeys] ends the same with or without such
    bytes before the first key. *)
Theorem status_bytes_are_dropped table swap pre ks flags out n :
  Forall (fun b => DoSpecial (LOBYTE b) = true) pre ->
  ConvertKeys_loop table swap (length pre + n) (mkWorld (pre ++ ks) flags out)
  = ConvertKeys_loop table swap n (mkWorld ks flags out) /\
  ConvertKeys table swap (pre ++ ks) = ConvertKeys table swap ks.
Proof.
  intros Hpre.
  assert (forall m,
            ConvertKeys_loop table swap (length pre + m)
              (mkWorld (pre ++ ks) flags out)
            = ConvertKeys_loop table swap m (mkWorld ks flags out)) as H.
  { revert flags out. induction Hpre as [|b pre Hb _ IH]; intros flags out m;
      [reflexivity|].
    rewrite <- IH.
    change (length (b :: pre) + m)%nat with (S (length pre + m)).
    remember (length pre + m)%nat as j.
    cbn [ConvertKeys_loop]. unfold ConvertKeys_turn. unfold bind at 1.
    change ((b :: pre) ++ ks) with (b :: (pre ++ ks)).
    rewrite WaitKey_cons, Hb. reflexivity. }
  split; [apply H|].
  unfold ConvertKeys. rewrite length_app.
  clear H. induction Hpre as [|b pre Hb _ IH]; [reflexivity|].
  rewrite <- IH.
  change (S (length (b :: pre) + length ks))
    with (S (S (length pre + length ks))).
  remember (S (length pre + length ks)) as j.
  cbn [ConvertKeys_loop]. unfold ConvertKeys_turn. unfold bind at 1.
  change ((b :: pre) ++ ks) with (b :: (pre ++ ks)).
  rewrite WaitKey_cons, Hb. reflexivity.
Qed.

Lemma status_bytes_are_dropped_witness :
  ConvertKeys_loop a_table false (2 + 1) (mkWorld ([0xFA; 0xAA] ++ [0x1C]) 8 [])
  = ConvertKeys_loop a_table false 1 (mkWorld [0x1C] 8 []) /\
  ConvertKeys a_table false ([0xFA; 0xAA] ++ [0x1C])
  = ConvertKeys a_table false [0x1C].
Proof.
  apply (status_bytes_are_dropped a_table false [0xFA; 0xAA] [0x1C] 8 [] 1).
  repeat constructor.
Defined.

(** ** Where the table is read *)

Lemma in_table_ret {A} (a : A) : in_table (ret a).
Proof. intros w r w'. discriminate. Qed.

Lemma in_table_WaitKey : in_table WaitKey.
Proof. intros w r w'. unfold WaitKey. destruct (keys w); discriminate. Qed.

Lemma in_table_SendHost c : in_table (SendHost c).
Proof. intros w r w'. discriminate. Qed.

Lemma in_table_get_bit b : in_table (get_bit b).
Proof. intros w r w'. discriminate. Qed.

Lemma in_table_put_bit b v : in_table (put_bit b v).
Proof. intros w r w'. discriminate. Qed.

Lemma in_table_when c m : in_table m -> in_table (when c m).
Proof. intros H. destruct c; [exact H | apply in_table_ret]. Qed.

Lemma in_table_if {A} (c : bool) (m1 m2 : M A) :
  in_table m1 -> in_table m2 -> in_table (if c then m1 else m2).
Proof. now destruct c. Qed.

Lemma in_table_bind {A B} (m : M A) (k : A -> M B) :
  in_table m -> (forall a, in_table (k a)) -> in_table (bind m k).
Proof.
  intros Hm Hk w r w'. unfold bind.
  destruct (m w) as [a w1| w1| r1 w1] eqn:E.
  - apply Hk.
  - discriminate.
  - now apply Hm in E.
Qed.

Create HintDb tbl.

#[local] Hint Resolve in_table_ret in_table_WaitKey in_table_SendHost
  in_table_get_bit in_table_put_bit in_table_when in_table_if
  in_table_bind : tbl.

Ltac table_match :=
  repeat match goal with
         | |- in_table (match ?x with _ => _ end) => destruct x
         end.

Lemma in_table_DoShift swap bKey fRelease fExtended :
  in_table (DoShift swap bKey fRelease fExtended).
Proof.
  unfold DoShift.
  generalize (if swap
              then if bKey =? 88 then 20 else if bKey =? 20 then 88 else bKey
              else bKey).
  intros b. table_match; auto 8 with tbl.
Qed.

Lemma in_table_DoFunction bKey fRelease : in_table (DoFunction bKey fRelease).
Proof. unfold DoFunction. table_match; auto 8 with tbl. Qed.

Lemma in_table_DoKeypad bKey fRelease : in_table (DoKeypad bKey fRelease).
Proof. unfold DoKeypad. table_match; auto 8 with tbl. Qed.

#[local] Hint Resolve in_table_DoShift in_table_DoFunction
  in_table_DoKeypad : tbl.

Lemma in_table_DoExtended swap : in_table (DoExtended swap).
Proof.
  unfold DoExtended.
  apply in_table_bind; [auto with tbl | intros b].
  apply in_table_bind; [auto 8 with tbl | intros [fRelease bExtended]].
  cbn [fst snd]. table_match; auto 8 with tbl.
Qed.

Lemma in_table_expect tail k : in_table k -> in_table (expect tail k).
Proof.
  intros Hk. induction tail as [|t tail IH]; [exact Hk|].
  simpl. auto 8 with tbl.
Qed.

(** A handler that answers no has left the world as it was. *)
Lemma DoShift_declines swap bKey fRelease fExtended w w' :
  DoShift swap bKey fRelease fExtended w = Ret false w' -> w' = w.
Proof.
  unfold DoShift.
  generalize (if swap
              then if bKey =? 88 then 20 else if bKey =? 20 then 88 else bKey
              else bKey).
  intros b.
  repeat match goal with
         | |- context [match ?x with _ => _ end] => destruct x
         end;
    intros E; inversion E; reflexivity.
Qed.

Lemma DoFunction_declines bKey fRelease w w' :
  DoFunction bKey fRelease w = Ret false w' -> w' = w.
Proof.
  unfold DoFunction.
  repeat match goal with
         | |- context [match ?x with _ => _ end] => destruct x
         end;
    destruct fRelease; intros E; inversion E; reflexivity.
Qed.

Lemma DoKeypad_declines bKey fRelease w w' :
  DoKeypad bKey fRelease w = Ret false w' -> w' = w.
Proof.
  unfold DoKeypad.
  repeat match goal with
         | |- context [match ?x with _ => _ end] => destruct x
         end;
    destruct fRelease; intros E; inversion E; reflexivity.
Qed.

Lemma DoASCII_fault_world table bKey fRelease w r w' :
  DoASCII table bKey fRelease w = OutOfTable r w' ->
  r = bKey /\ 128 <= bKey /\ w' = w.
Proof.
  unfold DoASCII, bind, read_table.
  destruct (Z.ltb_spec bKey 128) as [Hlt|Hge].
  - destruct (LOBYTE _ =? 0); [discriminate|].
    destruct fRelease; discriminate.
  - intros E. inversion E. subst. auto.
Qed.

(** The step [if (Do...(bKey)) continue;] when the rest faults. *)
Lemma chain_fault (m : M bool) (k : M unit) w r w' :
  in_table m ->
  (forall w1 w2, m w1 = Ret false w2 -> w2 = w1) ->
  (h <- m ;; if h then ret tt else k) w = OutOfTable r w' ->
  k w = OutOfTable r w'.
Proof.
  intros Hm Hd. unfold bind.
  destruct (m w) as [[|] w1| w1| r1 w1] eqn:E; try discriminate.
  - apply Hd in E. now subst.
  - now apply Hm in E.
Qed.

Lemma key_fault table swap bKey fRelease w r w' :
  (if bKey =? 0x77 then when (negb fRelease) (SendHost KEY_NUMLOCK)
   else if bKey =? 0x7E then when (negb fRelease) (SendHost KEY_SCRLCK)
   else
     h <- DoShift swap bKey fRelease false ;;
     if h then ret tt else
     h <- DoFunction bKey fRelease ;;
     if h then ret tt else
     h <- DoKeypad bKey fRelease ;;
     if h then ret tt else
     DoASCII table bKey fRelease ;;; ret tt) w = OutOfTable r w' ->
  r = bKey /\ 128 <= bKey /\ w' = w.
Proof.
  destruct (bKey =? 0x77).
  { intros E. now apply in_table_when in E; [|apply in_table_SendHost]. }
  destruct (bKey =? 0x7E).
  { intros E. now apply in_table_when in E; [|apply in_table_SendHost]. }
  intros E.
  apply chain_fault in E;
    [|apply in_table_DoShift | apply DoShift_declines].
  apply chain_fault in E;
    [|apply in_table_DoFunction | apply DoFunction_declines].
  apply chain_fault in E;
    [|apply in_table_DoKeypad | apply DoKeypad_declines].
  unfold bind in E.
  destruct (DoASCII table bKey fRelease w) as [a w1| w1| r1 w1] eqn:EA;
    try discriminate.
  inversion E; subst. now apply DoASCII_fault_world in EA.
Qed.

(** X14.  Where the decoder can leave the table.  A turn faults only in
    the lookup of [DoASCII], on a key code of 128 or more that was taken
    first in the turn or right after the release prefix 0xF0; the row is
    that key code, and the turn has sent nothing and changed no modifier.
    In particular the byte after the prefixes 0xE0 and 0xE1 never reaches
    the table. *)
Theorem fault_is_a_high_key_code table swap w r w' :
  ConvertKeys_turn table swap w = OutOfTable r w' ->
  128 <= r < 256 /\
  sent w' = sent w /\
  m_bShiftFlags w' = m_bShiftFlags w /\
  exists k,
    LOBYTE k = r /\
    (keys w = k :: keys w' \/
     exists p, LOBYTE p = 0xF0 /\ keys w = p :: k :: keys w').
Proof.
  unfold ConvertKeys_turn. unfold bind at 1. unfold WaitKey at 1.
  destruct (keys w) as [|k ks] eqn:Ek; [discriminate|].
  destruct (DoSpecial (LOBYTE k)); [discriminate|].
  destruct (LOBYTE k =? 0xE0).
  { intros E. now apply in_table_DoExtended in E. }
  destruct (LOBYTE k =? 0xE1) eqn:E1.
  { intros E. now apply in_table_expect in E; [|apply in_table_SendHost]. }
  destruct (Z.eqb_spec (LOBYTE k) 0xF0) as [EF|EF].
  - rewrite bind_assoc. unfold bind at 1. unfold WaitKey at 1.
    cbn [keys]. destruct ks as [|k2 ks2]; [discriminate|].
    rewrite bind_ret. cbn [fst snd m_bShiftFlags sent].
    intros E. apply key_fault in E. destruct E as (-> & Hr & ->).
    pose proof (LOBYTE_byte k2) as Hb. unfold is_byte in Hb. cbn [sent m_bShiftFlags keys].
    split; [lia|]. split; [reflexivity|]. split; [reflexivity|].
    exists k2. split; [reflexivity|]. right. exists k. auto.
  - rewrite bind_ret. cbn [fst snd].
    intros E. apply key_fault in E. destruct E as (-> & Hr & ->).
    pose proof (LOBYTE_byte k) as Hb. unfold is_byte in Hb. cbn [sent m_bShiftFlags keys].
    split; [lia|]. split; [reflexivity|]. split; [reflexivity|].
    exists k. split; [reflexivity|]. now left.
Qed.

Lemma fault_is_a_high_key_code_witness :
  128 <= 0x84 < 256 /\
  sent (mkWorld [] 0 []) = sent (mkWorld [0xF0; 0x84] 0 []) /\
  m_bShiftFlags (mkWorld [] 0 []) = m_bShiftFlags (mkWorld [0xF0; 0x84] 0 []) /\
  exists k,
    LOBYTE k = 0x84 /\
    (keys (mkWorld [0xF0; 0x84] 0 []) = k :: keys (mkWorld [] 0 []) \/
     exists p, LOBYTE p = 0xF0 /\
       keys (mkWorld [0xF0; 0x84] 0 []) = p :: k :: keys (mkWorld [] 0 [])).
Proof.
  apply (fault_is_a_high_key_code no_table false
           (mkWorld [0xF0; 0x84] 0 []) 0x84 (mkWorld [] 0 [])).
  reflexivity.
Defined.

(** ** ps2apu.c *)

(** X15.  What the host sees after a restart.  [main] leaves the receiver
    idle with an empty queue, no flag set and timer 0 stopped, and the
    first byte it sends is the version byte 0xC4; every byte after it
    comes from the decoder and is at most 0xAF, so the version byte cannot
    be taken for a key, and there are no more of them than the keyboard
    delivered bytes. *)
Theorem main_sends_version_first table swap st ks :
  exists h out,
    snd (main table swap st ks) = Some h /\
    sent (halt_world h) = 0xC4 :: out /\
    Forall (fun c => 0 <= c <= 0xAF) out /\
    (length out <= length ks)%nat /\
    let st' := fst (main table swap st ks) in
    m_bKeyState st' = 0 /\ g_bKeyFlags st' = 0 /\
    m_bKeyGet st' = m_bKeyPut st' /\ TR0 st' = false.
Proof.
  unfold main, SendHost, ConvertKeys_in. cbn [keys sent m_bShiftFlags fst snd].
  destruct (ConvertKeys_loop_halts table swap (S (length ks))
              (mkWorld ks 0 ([] ++ [Z.lor KEY_VERSION VERSION])))
    as [h E]; [simpl; lia|].
  destruct (loop_output _ _ _ _ _ E) as (out & Hs & Hf & Hl).
  exists h, out. split; [exact E|]. split; [exact Hs|].
  split; [exact Hf|]. split; [simpl in Hl; lia|].
  repeat split.
Qed.

(** ** ps2apu.h *)

Lemma testbit_byte_mask x n :
  0 <= n -> Z.testbit (Z.land x 0xFF) n = Z.testbit x n && (n <? 8).
Proof.
  intros Hn. change 0xFF with (Z.ones 8).
  now rewrite Z.land_spec, Z.testbit_ones_nonneg by lia.
Qed.

Lemma testbit_word_mask x n :
  0 <= n -> Z.testbit (Z.land x 0xFFFF) n = Z.testbit x n && (n <? 16).
Proof.
  intros Hn. change 0xFFFF with (Z.ones 16).
  now rewrite Z.land_spec, Z.testbit_ones_nonneg by lia.
Qed.

Lemma testbit_MKWORD h l n :
  0 <= n ->
  Z.testbit (MKWORD h l) n =
  if n <? 8 then Z.testbit l n
  else if n <? 16 then Z.testbit h (n - 8) else false.
Proof.
  intros Hn. unfold MKWORD.
  rewrite testbit_word_mask, Z.lor_spec, testbit_byte_mask by lia.
  destruct (Z.ltb_spec n 8) as [H8|H8].
  - rewrite Z.shiftl_spec_low by lia.
    destruct (Z.ltb_spec n 16); [|lia].
    now rewrite !andb_true_r.
  - rewrite Z.shiftl_spec, testbit_byte_mask by lia.
    rewrite andb_false_r, orb_false_r.
    destruct (Z.ltb_spec n 16) as [H16|H16].
    + destruct (Z.ltb_spec (n - 8) 8); [|lia]. now rewrite !andb_true_r.
    + now rewrite andb_false_r.
Qed.

Lemma testbit_HIBYTE x n :
  0 <= n -> Z.testbit (HIBYTE x) n = Z.testbit x (n + 8) && (n <? 8).
Proof.
  intros Hn. unfold HIBYTE.
  rewrite !testbit_byte_mask, Z.shiftr_spec by lia.
  now destruct (Z.testbit x (n + 8)), (n <? 8).
Qed.

(** X16.  The word macros of ps2apu.h fit together: a 16 bit value is
    put back together from its two halves, and the halves of a word built
    with [MKWORD] are the low bytes of its arguments. *)
Theorem word_macros_round_trip x h l :
  0 <= x < 65536 ->
  MKWORD (HIBYTE x) (LOBYTE x) = x /\
  LOBYTE (MKWORD h l) = LOBYTE l /\
  HIBYTE (MKWORD h l) = LOBYTE h.
Proof.
  intros Hx. split; [|split]; apply Z.bits_inj'; intros n Hn.
  - rewrite testbit_MKWORD by lia. unfold LOBYTE.
    destruct (Z.ltb_spec n 8) as [H8|H8].
    + rewrite testbit_byte_mask by lia.
      destruct (Z.ltb_spec n 8); [|lia]. now rewrite andb_true_r.
    + destruct (Z.ltb_spec n 16) as [H16|H16].
      * rewrite testbit_HIBYTE by lia.
        replace (n - 8 + 8) with n by lia.
        destruct (Z.ltb_spec (n - 8) 8); [|lia]. now rewrite andb_true_r.
      * symmetry. destruct (Z.eq_dec x 0) as [->|Hx0];
          [apply Z.testbit_0_l|].
        apply Z.bits_above_log2; [lia|].
        assert (Z.log2 x < 16); [|lia].
        apply Z.log2_lt_pow2; lia.
  - unfold LOBYTE at 1 2. rewrite !testbit_byte_mask, testbit_MKWORD by lia.
    destruct (Z.ltb_spec n 8); [reflexivity|].
    now rewrite !andb_false_r.
  - unfold LOBYTE. rewrite testbit_HIBYTE, testbit_byte_mask, testbit_MKWORD by lia.
    destruct (Z.ltb_spec n 8) as [H8|H8]; [|now rewrite !andb_false_r].
    destruct (Z.ltb_spec (n + 8) 8); [lia|].
    destruct (Z.ltb_spec (n + 8) 16); [|lia].
    now replace (n + 8 - 8) with n by lia.
Qed.

Lemma word_macros_round_trip_witness :
  MKWORD (HIBYTE 0xBEEF) (LOBYTE 0xBEEF) = 0xBEEF /\
  LOBYTE (MKWORD 0x1BE 0x2EF) = LOBYTE 0x2EF /\
  HIBYTE (MKWORD 0x1BE 0x2EF) = LOBYTE 0x1BE.
Proof. apply (word_macros_round_trip 0xBEEF 0x1BE 0x2EF). lia. Defined.

(** ** Modifier keys and sending keys *)

Lemma quiet_ret {A} (a : A) : quiet (ret a).
Proof. intros w. now split. Qed.

Lemma quiet_WaitKey : quiet WaitKey.
Proof. intros w. unfold WaitKey. now destruct (keys w). Qed.

Lemma quiet_get_bit b : quiet (get_bit b).
Proof. intros w. now split. Qed.

Lemma quiet_if {A} (c : bool) (m1 m2 : M A) :
  quiet m1 -> quiet m2 -> quiet (if c then m1 else m2).
Proof. now destruct c. Qed.

Lemma quiet_bind {A B} (m : M A) (k : A -> M B) :
  quiet m -> (forall a, quiet (k a)) -> quiet (bind m k).
Proof.
  intros Hm Hk w. specialize (Hm w). unfold bind.
  destruct (m w) as [a w'| w'| r w']; simpl in Hm; try exact Hm.
  destruct Hm as [<- <-]. apply Hk.
Qed.

Lemma exclusive_of_quiet {A} (m : M A) : quiet m -> exclusive m.
Proof. intros H w. left. apply H. Qed.

Lemma exclusive_SendHost c : exclusive (SendHost c).
Proof. intros w. now right. Qed.

Lemma exclusive_put_bit b v : exclusive (put_bit b v).
Proof. intros w. now left. Qed.

Lemma exclusive_when c m : exclusive m -> exclusive (when c m).
Proof.
  intros H. destruct c; [exact H | apply exclusive_of_quiet, quiet_ret].
Qed.

Lemma exclusive_if {A} (c : bool) (m1 m2 : M A) :
  exclusive m1 -> exclusive m2 -> exclusive (if c then m1 else m2).
Proof. now destruct c. Qed.

Lemma exclusive_bind_l {A B} (m : M A) (k : A -> M B) :
  quiet m -> (forall a, exclusive (k a)) -> exclusive (bind m k).
Proof.
  intros Hm Hk w. specialize (Hm w). unfold bind.
  destruct (m w) as [a w'| w'| r w']; simpl in Hm; try (left; apply Hm).
  destruct Hm as [<- <-]. apply Hk.
Qed.

Lemma exclusive_bind_r {A B} (m : M A) (k : A -> M B) :
  exclusive m -> (forall a, quiet (k a)) -> exclusive (bind m k).
Proof.
  intros Hm Hk w. specialize (Hm w). unfold bind.
  destruct (m w) as [a w'| w'| r w']; simpl in Hm; try exact Hm.
  destruct (Hk a w') as [-> ->]. exact Hm.
Qed.

Lemma exclusive_chain (m : M bool) (k : M unit) :
  exclusive m -> (forall w w', m w = Ret false w' -> w' = w) ->
  exclusive k ->
  exclusive (h <- m ;; if h then ret tt else k).
Proof.
  intros Hm Hd Hk w. pose proof (Hm w) as Hw. unfold bind.
  destruct (m w) as [[|] w'| w'| r w'] eqn:E; simpl in Hw; try exact Hw.
  apply Hd in E. subst. apply Hk.
Qed.

Create HintDb excl.

#[local] Hint Resolve quiet_ret quiet_WaitKey quiet_get_bit quiet_if
  quiet_bind exclusive_of_quiet exclusive_SendHost exclusive_put_bit
  exclusive_when exclusive_if : excl.

Ltac excl_match :=
  repeat match goal with
         | |- exclusive (match ?x with _ => _ end) => destruct x
         end.

Ltac excl_step :=
  first [ solve [auto with excl]
        | apply exclusive_if
        | apply exclusive_bind_l; [solve [auto with excl] | intros ?]
        | apply exclusive_bind_r; [ | intros ?; solve [auto with excl]] ].

Lemma exclusive_DoShift swap bKey fRelease fExtended :
  exclusive (DoShift swap bKey fRelease fExtended).
Proof.
  unfold DoShift.
  generalize (if swap
              then if bKey =? 88 then 20 else if bKey =? 20 then 88 else bKey
              else bKey).
  intros b. excl_match; repeat excl_step.
Qed.

Lemma exclusive_DoFunction bKey fRelease :
  exclusive (DoFunction bKey fRelease).
Proof. unfold DoFunction. excl_match; repeat excl_step. Qed.

Lemma exclusive_DoKeypad bKey fRelease :
  exclusive (DoKeypad bKey fRelease).
Proof. unfold DoKeypad. excl_match; repeat excl_step. Qed.

Lemma exclusive_DoASCII table bKey fRelease :
  exclusive (DoASCII table bKey fRelease).
Proof.
  intros w. right. unfold DoASCII, bind, read_table.
  destruct (bKey <? 128); [|reflexivity].
  destruct (LOBYTE _ =? 0); [reflexivity|].
  destruct fRelease; reflexivity.
Qed.

#[local] Hint Resolve exclusive_DoShift exclusive_DoFunction
  exclusive_DoKeypad exclusive_DoASCII : excl.

Lemma exclusive_DoExtended swap : exclusive (DoExtended swap).
Proof.
  unfold DoExtended. excl_step. excl_step.
  destruct a0 as [fRelease bExtended]. cbn [fst snd].
  excl_match; repeat excl_step.
Qed.

Lemma exclusive_expect tail k : exclusive k -> exclusive (expect tail k).
Proof.
  intros Hk. induction tail as [|t tail IH]; [exact Hk|].
  simpl. repeat excl_step.
Qed.

(** X17.  Modifier keys are silent and sending keys leave the modifiers
    alone: no turn of the decoder loop both hands a byte to the host and
    changes the modifier flags, on any input and however the turn ends. *)
Theorem turn_sends_or_shifts table swap w :
  let w' := world_of (ConvertKeys_turn table swap w) in
  sent w' = sent w \/ m_bShiftFlags w' = m_bShiftFlags w.
Proof.
  revert w. change (exclusive (ConvertKeys_turn table swap)).
  unfold ConvertKeys_turn.
  apply exclusive_bind_l; [auto with excl | intros bKey].
  apply exclusive_if; [auto with excl|].
  apply exclusive_if; [apply exclusive_DoExtended|].
  apply exclusive_if; [apply exclusive_expect, exclusive_SendHost|].
  apply exclusive_bind_l; [auto 8 with excl | intros [fRelease k]].
  cbn [fst snd].
  apply exclusive_if; [auto with excl|].
  apply exclusive_if; [auto with excl|].
  apply exclusive_chain;
    [apply exclusive_DoShift | apply DoShift_declines |].
  apply exclusive_chain;
    [apply exclusive_DoFunction | apply DoFunction_declines |].
  apply exclusive_chain;
    [apply exclusive_DoKeypad | apply DoKeypad_declines |].
  apply exclusive_bind_r; [apply exclusive_DoASCII | intros ?; auto with excl].
Qed.
End HostExtra.
